(** * A TOML to configuration-language translator (main.py), embedded in Rocq

    The translator reads a parsed TOML document, collects the names declared
    in its [constants] tables, renders one [def NAME := value;] line per
    constant, substitutes [.{NAME}.] placeholders inside strings and emits
    every top-level table as a [name = $[ ... ]] block.

    The embedding follows main.py function by function.  Python exceptions
    are the [Raise] outcomes of a small error monad, the global set [consts]
    is threaded through the functions as a [gset string], and a table is an
    association list in document order. *)

From Stdlib Require Import ZArith Ascii String List Bool Lia DecimalString.
From stdpp Require Import gmap strings list.

Local Open Scope string_scope.

(** ** Python strings

    A Python character is modelled by an [ascii], read as a code point
    below 256, and a [str] by a [string].  String concatenation is stdpp's
    [+:+]. *)

Module Py.

Definition tab : ascii := "009"%char.
Definition newline : ascii := "010"%char.
Definition dquote : ascii := "034"%char.

Definition str1 (c : ascii) : string := String c EmptyString.

(** ['\t' * d]; a negative count gives the empty string in Python, which is
    what the truncated subtraction of [nat] gives for [d - 1] at [d = 0]. *)
Fixpoint tabs (d : nat) : string :=
  match d with
  | O => EmptyString
  | S d' => String tab (tabs d')
  end.

(** [sep.join(parts)] *)
Fixpoint join (sep : string) (parts : list string) : string :=
  match parts with
  | [] => EmptyString
  | [p] => p
  | p :: rest => p +:+ sep +:+ join sep rest
  end.

(** [str(n)] for an integer: its decimal digits, with a minus sign when
    negative. *)
Definition str_int (z : Z) : string := NilZero.string_of_int (Z.to_int z).

(** [c.lower()] on one character: A-Z and the Latin-1 capitals move 32 code
    points up, everything else stays. *)
Definition lower_char (c : ascii) : ascii :=
  let n := N_of_ascii c in
  if ((65 <=? n) && (n <=? 90) || (192 <=? n) && (n <=? 222) && negb (n =? 215))%N
  then ascii_of_N (n + 32)
  else c.

Fixpoint lower (s : string) : string :=
  match s with
  | EmptyString => EmptyString
  | String c s' => String (lower_char c) (lower s')
  end.

(** [s.startswith(p)], returning the text after the prefix. *)
Fixpoint strip_prefix (p s : string) : option string :=
  match p, s with
  | EmptyString, _ => Some s
  | String a p', String b s' => if Ascii.eqb a b then strip_prefix p' s' else None
  | String _ _, EmptyString => None
  end.

(** [needle in haystack] for two strings. *)
Fixpoint contains (needle haystack : string) : bool :=
  match strip_prefix needle haystack with
  | Some _ => true
  | None =>
      match haystack with
      | EmptyString => false
      | String _ rest => contains needle rest
      end
  end.

(** [s.replace(old, new)]: the occurrences of [old] are taken from left to
    right and do not overlap; the text put in place of one is not scanned
    again.  The fuel bounds the number of steps, [replace] gives enough.
    With an empty [old] Python puts [new] before every character and at the
    end. *)
Fixpoint replace_empty (new s : string) : string :=
  match s with
  | EmptyString => new
  | String c s' => new +:+ String c (replace_empty new s')
  end.

Fixpoint replace_from (fuel : nat) (old new s : string) : string :=
  match fuel with
  | O => s
  | S fuel' =>
      match strip_prefix old s with
      | Some rest => new +:+ replace_from fuel' old new rest
      | None =>
          match s with
          | EmptyString => EmptyString
          | String c s' => String c (replace_from fuel' old new s')
          end
      end
  end.

Definition replace (s old new : string) : string :=
  match old with
  | EmptyString => replace_empty new s
  | String _ _ => replace_from (S (String.length s)) old new s
  end.

(** [s.split(sep)] for a one-character separator. *)
Fixpoint split (sep : ascii) (s : string) : list string :=
  match s with
  | EmptyString => [EmptyString]
  | String c s' =>
      if Ascii.eqb c sep then EmptyString :: split sep s'
      else
        match split sep s' with
        | [] => [str1 c]
        | p :: ps => String c p :: ps
        end
  end.

(** [s.lstrip(chars)], [s.rstrip(chars)], [s.strip(chars)], with the set of
    characters given as a predicate. *)
Fixpoint lstrip (drop : ascii -> bool) (s : string) : string :=
  match s with
  | EmptyString => EmptyString
  | String c s' => if drop c then lstrip drop s' else s
  end.

Fixpoint rev_onto (s acc : string) : string :=
  match s with
  | EmptyString => acc
  | String c s' => rev_onto s' (String c acc)
  end.

Definition rstrip (drop : ascii -> bool) (s : string) : string :=
  rev_onto (lstrip drop (rev_onto s EmptyString)) EmptyString.

Definition strip (drop : ascii -> bool) (s : string) : string :=
  rstrip drop (lstrip drop s).

(** The characters in ['# '], and the characters [str.isspace] accepts. *)
Definition hash_or_space (c : ascii) : bool :=
  Ascii.eqb c "#"%char || Ascii.eqb c " "%char.

Definition isspace (c : ascii) : bool :=
  let n := N_of_ascii c in
  ((9 <=? n) && (n <=? 13) || (28 <=? n) && (n <=? 32) || (n =? 133) || (n =? 160))%N.

End Py.

(** ** The two regular expressions

    Both patterns are built from one-character classes, literal characters
    and one greedy star.  [star] is the star of Python's backtracking
    matcher over a one-character class: it first takes the longest run, and
    gives characters back one at a time while the rest of the pattern
    fails. *)

Module Re.

(** [[_A-Za-z]] *)
Definition name_start (c : ascii) : bool :=
  let n := N_of_ascii c in
  ((n =? 95) || (65 <=? n) && (n <=? 90) || (97 <=? n) && (n <=? 122))%N.

(** [[_a-zA-Z0-9]] *)
Definition name_char (c : ascii) : bool :=
  let n := N_of_ascii c in
  ((n =? 95) || (97 <=? n) && (n <=? 122) || (65 <=? n) && (n <=? 90)
   || (48 <=? n) && (n <=? 57))%N.

(** [cls*] followed by [rest]; [taken] is the text the star has consumed so
    far and [rest] receives it together with the text still to match. *)
Fixpoint star {X : Type} (cls : ascii -> bool)
    (rest : string -> string -> option X) (taken s : string) : option X :=
  match s with
  | String c s' =>
      if cls c then
        match star cls rest (taken +:+ Py.str1 c) s' with
        | Some x => Some x
        | None => rest taken s
        end
      else rest taken s
  | EmptyString => rest taken s
  end.

(** [$] without [re.MULTILINE]: the end of the string, or just before a
    newline that is the last character of the string. *)
Definition at_dollar (s : string) : bool :=
  match s with
  | EmptyString => true
  | String c EmptyString => Ascii.eqb c Py.newline
  | String _ (String _ _) => false
  end.

(** [.] without [re.DOTALL]: any character but a newline. *)
Definition any_char (c : ascii) : bool := negb (Ascii.eqb c Py.newline).

(** [re.compile(r'^[_A-Za-z][_a-zA-Z0-9]*$').match(s)], as the truth value
    the program tests. *)
Definition name_pattern_match (s : string) : bool :=
  match s with
  | String c s' =>
      if name_start c then
        match star name_char
                (fun _ tl => if at_dollar tl then Some tt else None)
                EmptyString s' with
        | Some _ => true
        | None => false
        end
      else false
  | EmptyString => false
  end.

(** One attempt of the placeholder pattern at the start of [s]: a dot, an
    open brace, group 1 made of one [[_A-Za-z]] and a greedy run of
    [[_a-zA-Z0-9]], a close brace and one more character, which the pattern
    writes as an unescaped dot.  The result is the text of group 1 and the
    text after the match. *)
Definition placeholder_at (s : string) : option (string * string) :=
  match s with
  | String "."%char (String "{"%char (String c s1)) =>
      if name_start c then
        star name_char
          (fun taken tl =>
             match tl with
             | String "}"%char (String x tl') =>
                 if any_char x then Some (String c taken, tl') else None
             | _ => None
             end)
          EmptyString s1
      else None
  | _ => None
  end.

(** [re.findall] with the placeholder pattern: the matches are found from
    left to right and do not overlap; with one group in the pattern the
    result lists the text of that group. *)
Fixpoint findall_from (fuel : nat) (s : string) : list string :=
  match fuel with
  | O => []
  | S fuel' =>
      match placeholder_at s with
      | Some (name, rest) => name :: findall_from fuel' rest
      | None =>
          match s with
          | EmptyString => []
          | String _ s' => findall_from fuel' s'
          end
      end
  end.

Definition findall (s : string) : list string :=
  findall_from (S (String.length s)) s.

End Re.

(** ** Documents

    The tree tomlkit's [parse] hands to the program, as the program sees it
    through [isinstance] and the mapping interface: booleans, integers,
    floats, strings, arrays (also arrays of tables), tables and the values
    of the remaining kinds (dates and times).  A float is carried as the
    text [str] gives for it.  A table records which class it is, the
    comment of its trivia, and its entries in document order; the parser
    yields tables whose keys are pairwise different. *)

Inductive table_kind : Type :=
| Document      (* tomlkit.TOMLDocument, the root *)
| Table         (* tomlkit.items.Table, written with a [name] header *)
| InlineTable   (* tomlkit.items.InlineTable, written with braces *)
| PyDict.       (* a plain dict, built by replace_constants *)

#[local] Unset Elimination Schemes.
Inductive node : Type :=
| VBool (b : bool)
| VInt (z : Z)
| VFloat (text : string)
| VStr (s : string)
| VList (items : list node)
| VDict (kind : table_kind) (comment : string) (entries : list (string * node))
| VOther (tyname : string).
#[local] Set Elimination Schemes.

(** The exceptions the program can end with.  The first seven are the
    [ValueError]s main.py raises, with their messages; the others are raised
    by the interpreter. *)
Inductive error : Type :=
| UnsupportedIdentifier (key : string)     (* Unsupported identifier name: 'key' *)
| UnsupportedType (tyname : string)        (* Unsupported type: tyname *)
| InvalidConstantsValue                    (* Constants should be a dictionary. *)
| InvalidIdentifier (name : string)        (* Invalid constant name: 'name' *)
| DuplicateConstant (name : string)        (* Duplicate constant: 'name' *)
| UndefinedConstant (name : string)        (* Undefined constant: 'name' *)
| UnsupportedSectionName (name : string)   (* Unsupported section name: 'name' *)
| TypeErrorNotContainer                    (* x in v, with v a number, a boolean or a date *)
| TypeErrorIndex                           (* v[x], with v a string or a list and x a string *)
| KeyError (key : string)
| AttributeError (attr : string).

Inductive result (A : Type) : Type :=
| Ok (a : A)
| Raise (e : error).
Arguments Ok {A} a.
Arguments Raise {A} e.

#[global] Instance result_ret : MRet result := fun A a => Ok a.
#[global] Instance result_bind : MBind result := fun A B f m =>
  match m with
  | Ok a => f a
  | Raise e => Raise e
  end.
#[global] Instance result_fmap : FMap result := fun A B f m =>
  match m with
  | Ok a => Ok (f a)
  | Raise e => Raise e
  end.

Definition is_ok {A : Type} (r : result A) : bool :=
  match r with
  | Ok _ => true
  | Raise _ => false
  end.

(** [key.lower() == "constants"] and [key.lower() == "comments"] *)
Definition is_constants (key : string) : bool := String.eqb (Py.lower key) "constants".
Definition is_comments (key : string) : bool := String.eqb (Py.lower key) "comments".

(** [d.items()]; only a dict has the attribute. *)
Definition items (v : node) : result (list (string * node)) :=
  match v with
  | VDict _ _ entries => Ok entries
  | _ => Raise (AttributeError "items")
  end.

(** [name in v] for a string [name]: key membership in a table, element
    equality in a list, substring search in a string, and a [TypeError] for
    every other kind. *)
Definition is_str (name : string) (v : node) : bool :=
  match v with
  | VStr s => String.eqb s name
  | _ => false
  end.

Definition py_in (name : string) (v : node) : result bool :=
  match v with
  | VDict _ _ entries => Ok (existsb (fun kv => String.eqb (fst kv) name) entries)
  | VList elems => Ok (existsb (is_str name) elems)
  | VStr s => Ok (Py.contains name s)
  | _ => Raise TypeErrorNotContainer
  end.

(** [v[name]] for a string [name]. *)
Fixpoint lookup_key (name : string) (entries : list (string * node)) : option node :=
  match entries with
  | [] => None
  | (k, v) :: rest => if String.eqb k name then Some v else lookup_key name rest
  end.

Definition py_getitem (v : node) (name : string) : result node :=
  match v with
  | VDict _ _ entries =>
      match lookup_key name entries with
      | Some x => Ok x
      | None => Raise (KeyError name)
      end
  | _ => Raise TypeErrorIndex
  end.

(** ** Constant discovery: collect_constants

    [consts] is the module-level set; the function takes its current
    content and returns the content after the call.  [add_constants] is the
    inner loop over the entries of one constants table. *)

Fixpoint add_constants (entries : list (string * node)) (consts : gset string)
    : result (gset string) :=
  match entries with
  | [] => Ok consts
  | (const_name, _) :: rest =>
      if negb (Re.name_pattern_match const_name) then Raise (InvalidIdentifier const_name)
      else if decide (const_name ∈ consts) then Raise (DuplicateConstant const_name)
      else add_constants rest ({[const_name]} ∪ consts)
  end.

Fixpoint collect_constants (obj : node) (consts : gset string) {struct obj}
    : result (gset string) :=
  match obj with
  | VDict _ _ entries =>
      (fix each (l : list (string * node)) (consts : gset string) : result (gset string) :=
         match l with
         | [] => Ok consts
         | (key, value) :: l' =>
             if is_constants key then
               match value with
               | VDict _ _ decls => consts' ← add_constants decls consts; each l' consts'
               | _ => Raise InvalidConstantsValue
               end
             else consts' ← collect_constants value consts; each l' consts'
         end) entries consts
  | VList elems =>
      (fix each (l : list node) (consts : gset string) : result (gset string) :=
         match l with
         | [] => Ok consts
         | item :: l' => consts' ← collect_constants item consts; each l' consts'
         end) elems consts
  | _ => Ok consts
  end.

(** ** Constant resolution: get_constant_value

    The result is [None] where Python returns [None]. *)

Fixpoint get_constant_value (obj : node) (const_name : string) {struct obj}
    : result (option node) :=
  match obj with
  | VDict _ _ entries =>
      (fix each (l : list (string * node)) : result (option node) :=
         match l with
         | [] => Ok None
         | (key, value) :: l' =>
             hit ← (if is_constants key then py_in const_name value else Ok false);
             if hit : bool then Some <$> py_getitem value const_name
             else
               found ← get_constant_value value const_name;
               match found with
               | Some x => Ok (Some x)
               | None => each l'
               end
         end) entries
  | VList elems =>
      (fix each (l : list node) : result (option node) :=
         match l with
         | [] => Ok None
         | item :: l' =>
             found ← get_constant_value item const_name;
             match found with
             | Some x => Ok (Some x)
             | None => each l'
             end
         end) elems
  | _ => Ok None
  end.

(** ** Substitution, serialization and the driver

    Two things the program relies on are fixed outside the repository and
    are parameters here: the text [str] gives for an array, a table or a
    date, which tomlkit decides, and the order in which a [for] loop yields
    the elements of a set of strings, which the interpreter decides. *)

Section Translator.

Variable str_container : node -> string.
Variable set_iter : gset string -> list string.

(** [str(const_value)], for what [get_constant_value] can return. *)
Definition str (const_value : option node) : string :=
  match const_value with
  | None => "None"
  | Some (VBool b) => if b then "True" else "False"
  | Some (VInt z) => Py.str_int z
  | Some (VFloat text) => text
  | Some (VStr s) => s
  | Some v => str_container v
  end.

(** The f-string that rebuilds the placeholder of a name: a dot, the name in
    braces, a dot. *)
Definition placeholder (name : string) : string := ".{" +:+ name +:+ "}.".

(** The loop of replace_constants_in_string over the matches. *)
Fixpoint replace_matches (consts : gset string) (toml_doc : node)
    (matches : list string) (value : string) : result string :=
  match matches with
  | [] => Ok value
  | match_ :: rest =>
      if decide (match_ ∈ consts) then
        const_value ← get_constant_value toml_doc match_;
        replace_matches consts toml_doc rest
          (Py.replace value (placeholder match_) (str const_value))
      else Raise (UndefinedConstant match_)
  end.

Definition replace_constants_in_string (consts : gset string)
    (value : string) (toml_doc : node) : result string :=
  replace_matches consts toml_doc (Re.findall value) value.

Fixpoint replace_constants (consts : gset string) (obj toml_doc : node) {struct obj}
    : result node :=
  match obj with
  | VStr s => VStr <$> replace_constants_in_string consts s toml_doc
  | VDict _ _ entries =>
      VDict PyDict EmptyString <$>
      (fix each (l : list (string * node)) : result (list (string * node)) :=
         match l with
         | [] => Ok []
         | (k, v) :: l' =>
             v' ← replace_constants consts v toml_doc;
             rest ← each l';
             Ok ((k, v') :: rest)
         end) entries
  | VList elems =>
      VList <$>
      (fix each (l : list node) : result (list node) :=
         match l with
         | [] => Ok []
         | item :: l' =>
             item' ← replace_constants consts item toml_doc;
             rest ← each l';
             Ok (item' :: rest)
         end) elems
  | _ => Ok obj
  end.

Definition quoted (s : string) : string := Py.str1 Py.dquote +:+ s +:+ Py.str1 Py.dquote.
Definition nl : string := Py.str1 Py.newline.

(** One entry line of process_dict: the f-string [{indent}{key} = {value}]. *)
Definition entry_line (d : nat) (key processed_value : string) : string :=
  Py.tabs d +:+ key +:+ " = " +:+ processed_value.

(** The text process_dict builds from its entry lines. *)
Definition dict_text (d : nat) (entries : list string) : string :=
  "$[" +:+ nl +:+ Py.join ("," +:+ nl) entries +:+ nl +:+ Py.tabs (d - 1) +:+ "]".

(** The text process_array builds from its rendered items. *)
Definition array_text (items_list : list string) : string :=
  "#( " +:+ Py.join ", " items_list +:+ " )".

Fixpoint process_value (consts : gset string) (value : node) (d : nat)
    (toml_doc : node) {struct value} : result string :=
  match value with
  | VBool b => Ok (if b then "true" else "false")
  | VInt z => Ok (Py.str_int z)
  | VFloat text => Ok text
  | VStr s =>
      s' ← replace_constants_in_string consts s toml_doc;
      Ok (quoted s')
  | VList arr =>
      items_list ←
        (fix each (l : list node) : result (list string) :=
           match l with
           | [] => Ok []
           | item :: l' =>
               x ← process_value consts item d toml_doc;
               xs ← each l';
               Ok (x :: xs)
           end) arr;
      Ok (array_text items_list)
  | VDict _ _ obj =>
      entries ←
        (fix each (l : list (string * node)) : result (list string) :=
           match l with
           | [] => Ok []
           | (key, v) :: l' =>
               if negb (Re.name_pattern_match key) then Raise (UnsupportedIdentifier key)
               else
                 processed_value ← process_value consts v (d + 1) toml_doc;
                 es ← each l';
                 Ok (entry_line d key processed_value :: es)
           end) obj;
      Ok (dict_text d entries)
  | VOther tyname => Raise (UnsupportedType tyname)
  end.

(** process_array and process_dict, the two functions process_value calls
    for a list and for a dict; the loops are the ones written inside
    [process_value], see [process_value_list] and [process_value_dict]. *)
Fixpoint process_items (consts : gset string) (arr : list node) (d : nat)
    (toml_doc : node) : result (list string) :=
  match arr with
  | [] => Ok []
  | item :: rest =>
      x ← process_value consts item d toml_doc;
      xs ← process_items consts rest d toml_doc;
      Ok (x :: xs)
  end.

Definition process_array (consts : gset string) (arr : list node) (d : nat)
    (toml_doc : node) : result string :=
  items_list ← process_items consts arr d toml_doc;
  Ok (array_text items_list).

Fixpoint process_entries (consts : gset string) (obj : list (string * node)) (d : nat)
    (toml_doc : node) : result (list string) :=
  match obj with
  | [] => Ok []
  | (key, v) :: rest =>
      if negb (Re.name_pattern_match key) then Raise (UnsupportedIdentifier key)
      else
        processed_value ← process_value consts v (d + 1) toml_doc;
        es ← process_entries consts rest d toml_doc;
        Ok (entry_line d key processed_value :: es)
  end.

Definition process_dict (consts : gset string) (obj : list (string * node)) (d : nat)
    (toml_doc : node) : result string :=
  entries ← process_entries consts obj d toml_doc;
  Ok (dict_text d entries).


(** process_constants.  [get_constant_value] may return [None], and
    [process_value] then raises for the type of [None]. *)
Definition process_found (consts : gset string) (const_value : option node)
    (toml_doc : node) : result string :=
  match const_value with
  | Some v => process_value consts v 1 toml_doc
  | None => Raise (UnsupportedType "<class 'NoneType'>")
  end.

Fixpoint declarations (consts : gset string) (names : list string) (obj : node)
    : result (list string) :=
  match names with
  | [] => Ok []
  | const_name :: rest =>
      const_value ← get_constant_value obj const_name;
      processed_value ← process_found consts const_value obj;
      ds ← declarations consts rest obj;
      Ok (("def " +:+ const_name +:+ " := " +:+ processed_value +:+ ";") :: ds)
  end.

Definition process_constants (consts : gset string) (obj : node) : result string :=
  ds ← declarations consts (set_iter consts) obj;
  Ok (Py.join nl ds).

(** process_object.  [section_body] is the loop over the keys of one
    section, [section_comments] the loop over the lines of its comment.
    The mapping interface of a document never yields a comment item, so the
    last branch of the source has no counterpart here: a top-level entry
    that is not a [Table] adds nothing. *)
Fixpoint section_body (consts : gset string) (entries : list (string * node)) (d : nat)
    (toml_doc : node) : result string :=
  match entries with
  | [] => Ok EmptyString
  | (key, v) :: rest =>
      if is_constants key then section_body consts rest d toml_doc
      else if is_comments key then section_body consts rest d toml_doc
      else if negb (Re.name_pattern_match key) then Raise (UnsupportedIdentifier key)
      else
        processed_value ← process_value consts v (d + 1) toml_doc;
        more ← section_body consts rest d toml_doc;
        Ok (Py.tabs (d + 1) +:+ key +:+ " = " +:+ processed_value +:+ nl +:+ more)
  end.

Fixpoint section_comments (lines : list string) (d : nat) : string :=
  match lines with
  | [] => EmptyString
  | comment :: rest =>
      nl +:+ Py.tabs d +:+ "\ " +:+ Py.strip Py.isspace (Py.strip Py.hash_or_space comment)
      +:+ section_comments rest d
  end.

Fixpoint process_sections (consts : gset string) (sections : list (string * node))
    (d : nat) (toml_doc : node) : result string :=
  match sections with
  | [] => Ok EmptyString
  | (section_name, VDict Table comments entries) :: rest =>
      if negb (Re.name_pattern_match section_name)
      then Raise (UnsupportedSectionName section_name)
      else
        body ← section_body consts entries d toml_doc;
        more ← process_sections consts rest d toml_doc;
        Ok (Py.tabs d +:+ section_name +:+ " = $[" +:+ nl +:+ body +:+ Py.tabs d +:+ "]"
            +:+ (match comments with
                 | EmptyString => EmptyString
                 | String _ _ => section_comments (Py.split Py.newline comments) d
                 end)
            +:+ nl +:+ more)
  | _ :: rest => process_sections consts rest d toml_doc
  end.

Definition process_object (consts : gset string) (toml_doc : node) (d : nat)
    : result string :=
  sections ← items toml_doc;
  process_sections consts sections d toml_doc.

(** main, from the parsed document to the text written to the output file.
    The set [consts] is empty when the program starts. *)
Definition main (toml_doc : node) : result string :=
  consts ← collect_constants toml_doc ∅;
  const_declarations ← process_constants consts toml_doc;
  _ ← replace_constants consts toml_doc toml_doc;
  config ← process_object consts toml_doc 1;
  Ok (Py.join nl
        (match const_declarations with
         | EmptyString => []
         | String _ _ => [const_declarations; EmptyString]
         end ++ [config])).

End Translator.

(** ** Notions used to state the properties *)

(** The identifier grammar in the words of the specification: one ASCII
    letter or underscore, then ASCII letters, digits or underscores, and
    nothing else. *)
Fixpoint all_chars (p : ascii -> bool) (s : string) : bool :=
  match s with
  | EmptyString => true
  | String c s' => p c && all_chars p s'
  end.

Definition identifier (s : string) : bool :=
  match s with
  | EmptyString => false
  | String c s' => Re.name_start c && all_chars Re.name_char s'
  end.

(** A text without any dot. *)
Definition not_dot (c : ascii) : bool := negb (Ascii.eqb c "."%char).
Definition no_dot (s : string) : bool := all_chars not_dot s.

(** The longest run of characters of a class at the start of a text, and the
    text after it. *)
Fixpoint run (cls : ascii -> bool) (s : string) : string :=
  match s with
  | String c s' => if cls c then String c (run cls s') else EmptyString
  | EmptyString => EmptyString
  end.

Fixpoint after (cls : ascii -> bool) (s : string) : string :=
  match s with
  | String c s' => if cls c then after cls s' else s
  | EmptyString => EmptyString
  end.

(** What discovery meets on its way through a document, in document order:
    the names declared in the constants tables it visits, and the
    [constants] keys whose value is not a table.  Like collect_constants it
    does not look inside a constants table for further constants tables. *)
Inductive met : Type :=
| Declares (name : string)
| NotATable.

Fixpoint discovered (obj : node) : list met :=
  match obj with
  | VDict _ _ entries =>
      (fix each (l : list (string * node)) : list met :=
         match l with
         | [] => []
         | (key, value) :: l' =>
             ((if is_constants key then
                match value with
                | VDict _ _ decls => map (fun kv => Declares (fst kv)) decls
                | _ => [NotATable]
                end
              else discovered value) ++ each l')%list
         end) entries
  | VList elems =>
      (fix each (l : list node) : list met :=
         match l with
         | [] => []
         | item :: l' => (discovered item ++ each l')%list
         end) elems
  | _ => []
  end.

(** A declaration of a name the validator accepts. *)
Definition declares_valid (m : met) : Prop :=
  match m with
  | Declares name => Re.name_pattern_match name = true
  | NotATable => False
  end.

#[global] Instance met_eq_dec : EqDecision met.
Proof. solve_decision. Defined.

(** Discovery as one pass over what it meets: each declared name is
    validated, checked against the names registered so far and added. *)
Fixpoint register (ms : list met) (consts : gset string) : result (gset string) :=
  match ms with
  | [] => Ok consts
  | NotATable :: _ => Raise InvalidConstantsValue
  | Declares name :: rest =>
      if negb (Re.name_pattern_match name) then Raise (InvalidIdentifier name)
      else if decide (name ∈ consts) then Raise (DuplicateConstant name)
      else register rest ({[name]} ∪ consts)
  end.

(** Documents on which resolution has nothing to find inside a constants
    table: in every constants table that discovery visits, no constant is
    itself named [constants] and every value is a scalar. *)
Definition is_scalar (v : node) : bool :=
  match v with
  | VList _ | VDict _ _ _ => false
  | _ => true
  end.

Definition plain_decls (decls : list (string * node)) : bool :=
  forallb (fun kv => negb (is_constants (fst kv)) && is_scalar (snd kv)) decls.

Fixpoint plain (obj : node) : bool :=
  match obj with
  | VDict _ _ entries =>
      (fix each (l : list (string * node)) : bool :=
         match l with
         | [] => true
         | (key, value) :: l' =>
             (if is_constants key then
                match value with
                | VDict _ _ decls => plain_decls decls
                | _ => true
                end
              else plain value) && each l'
         end) entries
  | VList elems =>
      (fix each (l : list node) : bool :=
         match l with
         | [] => true
         | item :: l' => plain item && each l'
         end) elems
  | _ => true
  end.


(** A value the serializer cannot fail on: no value of an unsupported kind,
    every key accepted by the validator, no string with a dot followed by
    an open brace. *)
Fixpoint renderable (v : node) : bool :=
  match v with
  | VStr s => negb (Py.contains ".{" s)
  | VList elems => forallb renderable elems
  | VDict _ _ entries =>
      forallb (fun '(key, value) => Re.name_pattern_match key && renderable value) entries
  | VOther _ => false
  | _ => true
  end.

(** The two kinds of error the serializer raises by itself. *)
Definition serializer_error (e : error) : Prop :=
  match e with
  | UnsupportedIdentifier _ | UnsupportedType _ => True
  | _ => False
  end.

(** The keys the section emitter passes over. *)
Definition reserved (key : string) : bool := is_constants key || is_comments key.

(** The errors the translation is written to report: every error but the
    two the interpreter raises for a missing key and a missing attribute. *)
Definition reported (e : error) : Prop :=
  match e with
  | KeyError _ | AttributeError _ => False
  | _ => True
  end.


(** A top-level entry that is a table written with a header. *)
Definition is_section (v : node) : bool :=
  match v with
  | VDict Table _ _ => true
  | _ => false
  end.

(** ** Induction over documents *)

Section NodeInduction.

Variable P : node -> Prop.
Hypothesis P_bool : forall b, P (VBool b).
Hypothesis P_int : forall z, P (VInt z).
Hypothesis P_float : forall text, P (VFloat text).
Hypothesis P_str : forall s, P (VStr s).
Hypothesis P_list : forall elems, Forall P elems -> P (VList elems).
Hypothesis P_dict : forall kind comment entries,
  Forall (fun kv => P (snd kv)) entries -> P (VDict kind comment entries).
Hypothesis P_other : forall tyname, P (VOther tyname).

Fixpoint node_ind (v : node) : P v :=
  match v with
  | VBool b => P_bool b
  | VInt z => P_int z
  | VFloat text => P_float text
  | VStr s => P_str s
  | VList elems =>
      P_list elems
        ((fix all (l : list node) : Forall P l :=
            match l with
            | [] => @List.Forall_nil _ P
            | x :: l' => @List.Forall_cons _ P x l' (node_ind x) (all l')
            end) elems)
  | VDict kind comment entries =>
      P_dict kind comment entries
        ((fix all (l : list (string * node)) : Forall (fun kv => P (snd kv)) l :=
            match l with
            | [] => @List.Forall_nil _ _
            | kv :: l' => @List.Forall_cons _ _ kv l' (node_ind (snd kv)) (all l')
            end) entries)
  | VOther tyname => P_other tyname
  end.

End NodeInduction.

(** ** Documents used below

    [any_text] stands for the text tomlkit gives for a container; none of
    the documents below refers to a constant whose value is an array, a
    table or a date, so no result depends on it. *)

Module Examples.

Definition any_text : node -> string := fun _ => EmptyString.

Definition document : list (string * node) -> node := VDict Document EmptyString.
Definition table : list (string * node) -> node := VDict Table EmptyString.
Definition inline : list (string * node) -> node := VDict InlineTable EmptyString.

Definition tab1 : string := Py.str1 Py.tab.

(** The entries [host = "localhost"] and [port = 8080]. *)
Definition host_port : list (string * node) :=
  [("host", VStr "localhost"); ("port", VInt 8080)].

Definition server_doc : node := document [("server", table host_port)].

(** The document of test_simple_section_with_constants. *)
Definition constants_doc : node :=
  document
    [("server",
      table [("host", VStr "localhost"); ("port", VInt 8080);
             ("constants", inline [("MAX_CONNECTIONS", VInt 100); ("TIMEOUT", VInt 30)])])].

(** Two orders in which a loop may yield the elements of a set. *)
Definition ascending (names : gset string) : list string := elements names.
Definition descending (names : gset string) : list string := reverse (elements names).

(** A boolean constant referred to from a string. *)
Definition flag_doc : node :=
  document
    [("s", table [("constants", inline [("FLAG", VBool true)]);
                  ("msg", VStr "on=.{FLAG}.")])].

(** A constant named [constants] in one table, another constant in a later
    table. *)
Definition shadow_doc : node :=
  document
    [("a", table [("constants", inline [("constants", VInt 5)])]);
     ("b", table [("constants", inline [("X", VInt 1)])])].

(** A constant whose value is a table with its own [constants] entry, and
    the same name declared in a later constants table. *)
Definition nested_doc : node :=
  document
    [("a", table [("constants",
                   inline [("A", inline [("constants", inline [("X", VInt 1)])])])]);
     ("b", table [("constants", inline [("X", VInt 2)])])].

(** The name [X] under two constants tables, the second one inside a value
    of the first. *)
Definition inner_doc : node :=
  document
    [("s", table [("constants",
                   inline [("X", VInt 1);
                           ("Y", inline [("constants", inline [("X", VInt 2)])])])])].

(** The name [X] under two constants tables at different depths. *)
Definition twice_doc : node :=
  document
    [("server", table [("constants", inline [("A", VInt 1); ("X", VInt 2)])]);
     ("db", table [("replicas",
                    VList [inline [("constants", inline [("B", VInt 3); ("X", VInt 4)])]])])].

(** A date before a key with a hyphen. *)
Definition date_first : list (string * node) :=
  [("a", VOther "<class 'tomlkit.items.Date'>"); ("b-c", VInt 1)].

(** A document with one top-level key that is not a table. *)
Definition title_doc : node := document [("title", VStr "example")].


(** A string constant whose text holds a placeholder of its own. *)
Definition host_doc : node :=
  document
    [("s", table [("constants",
                   inline [("HOST", VStr "db.{PORT}.local"); ("PORT", VInt 5432)]);
                  ("url", VStr "url=.{HOST}./x")])].

(** An array of ports, and an array holding a date. *)
Definition ports : list node := [VInt 5432; VInt 5433; VInt 5434].
Definition ports_then_date : list node :=
  [VInt 5432; VOther "<class 'tomlkit.items.Date'>"; VInt 5434].

(** A [constants] key whose value is a number, after a constants table. *)
Definition number_constants_doc : node :=
  document
    [("a", table [("constants", inline [("A", VInt 1)])]);
     ("b", table [("constants", VInt 5)])].

(** A constant whose name has a hyphen, after a valid one. *)
Definition hyphen_constant_doc : node :=
  document [("a", table [("constants", inline [("A", VInt 1); ("bad-name", VInt 2)])])].

(** Two sections around a top-level scalar and an inline table. *)
Definition mixed_doc : node :=
  document
    [("title", VStr "example");
     ("server", table [("host", VStr "localhost"); ("Constants", inline [("A", VInt 1)]);
                       ("port", VInt 8080); ("COMMENTS", VStr "none")]);
     ("point", inline [("x", VInt 1)]);
     ("client", table [("retries", VInt 3)])].

End Examples.

(** ** Strings: basic facts *)

#[local] Arguments String.append !_ _ / : simpl nomatch.

Lemma append_nil_r (s : string) : s +:+ EmptyString = s.
Proof. induction s as [|c s IH]; simpl; [reflexivity | now rewrite IH]. Qed.

Lemma append_assoc (a b c : string) : (a +:+ b) +:+ c = a +:+ (b +:+ c).
Proof. induction a as [|x a IH]; simpl; [reflexivity | now rewrite IH]. Qed.

Lemma all_chars_append (p : ascii -> bool) (a b : string) :
  all_chars p (a +:+ b) = all_chars p a && all_chars p b.
Proof.
  induction a as [|x a IH]; simpl; [reflexivity |].
  rewrite IH. now rewrite andb_assoc.
Qed.



Lemma name_char_not_newline (c : ascii) : Re.name_char c = true -> c <> Py.newline.
Proof.
  destruct c as [[] [] [] [] [] [] [] []]; vm_compute; congruence.
Qed.


(** ** The greedy star never needs to give characters back here

    In both patterns the star is followed by something no name character
    can match, so the longest run is the only one that can succeed. *)

Lemma star_longest {X : Type} (cls : ascii -> bool)
    (rest : string -> string -> option X) :
  (forall taken c s, cls c = true -> rest taken (String c s) = None) ->
  forall s taken,
    Re.star cls rest taken s = rest (taken +:+ run cls s) (after cls s).
Proof.
  intros Hrest. induction s as [|c s IH]; intros taken; simpl.
  - now rewrite append_nil_r.
  - destruct (cls c) eqn:Hc.
    + rewrite IH. unfold Py.str1. rewrite append_assoc. simpl.
      destruct (rest _ (after cls s)); [reflexivity |].
      now apply Hrest.
    + now rewrite append_nil_r.
Qed.

Lemma run_identifier_tail (r tl : string) :
  all_chars Re.name_char r = true ->
  match tl with String c _ => Re.name_char c = false | EmptyString => True end ->
  run Re.name_char (r +:+ tl) = r /\ after Re.name_char (r +:+ tl) = tl.
Proof.
  intros Hr Htl. induction r as [|x r IH]; simpl in *.
  - destruct tl as [|c tl]; simpl; [auto |]. now rewrite Htl.
  - apply andb_true_iff in Hr as [Hx Hr]. rewrite Hx.
    destruct (IH Hr) as [-> ->]. auto.
Qed.

(** The validator accepts exactly the identifiers and the identifiers
    followed by one newline. *)
Lemma name_pattern_match_after (c : ascii) (s : string) :
  Re.name_pattern_match (String c s)
  = Re.name_start c && Re.at_dollar (after Re.name_char s).
Proof.
  unfold Re.name_pattern_match. destruct (Re.name_start c); [|reflexivity].
  rewrite star_longest.
  - simpl. now destruct (Re.at_dollar _).
  - intros _ x t Hx. simpl. destruct t; [|reflexivity].
    destruct (Ascii.eqb_spec x Py.newline) as [->|]; [|reflexivity].
    now apply name_char_not_newline in Hx.
Qed.

Lemma after_nil_all (cls : ascii -> bool) (s : string) :
  after cls s = EmptyString <-> all_chars cls s = true.
Proof.
  induction s as [|c s IH]; simpl; [tauto |].
  destruct (cls c); simpl; [exact IH |]. split; discriminate.
Qed.

Lemma after_split (cls : ascii -> bool) (s : string) :
  s = run cls s +:+ after cls s /\ all_chars cls (run cls s) = true.
Proof.
  induction s as [|c s [IH1 IH2]]; simpl; [auto |].
  destruct (cls c) eqn:Hc; simpl; [|auto].
  rewrite Hc, IH2. now rewrite <- IH1.
Qed.

Lemma name_pattern_match_spec (s : string) :
  Re.name_pattern_match s = true <->
  identifier s = true \/ exists s', s = s' +:+ nl /\ identifier s' = true.
Proof.
  destruct s as [|c s].
  - simpl. split; [discriminate |]. intros [H | (s' & H & _)]; [discriminate |].
    destruct s'; discriminate.
  - rewrite name_pattern_match_after. split.
    + intros [Hc Hd]%andb_true_iff.
      destruct (after_split Re.name_char s) as [Hs Hrun].
      destruct (after Re.name_char s) as [|x [|y t]] eqn:Ha; simpl in Hd.
      * left. simpl. rewrite Hc. now apply after_nil_all.
      * right. apply Ascii.eqb_eq in Hd as ->. exists (String c (run Re.name_char s)).
        simpl. rewrite Hc, Hrun. split; [|reflexivity]. now rewrite Hs at 1.
      * discriminate.
    + intros [H | (s' & H & Hid)].
      * simpl in H. apply andb_true_iff in H as [Hc Hs].
        rewrite Hc. apply after_nil_all in Hs. now rewrite Hs.
      * destruct s' as [|c' r]; [discriminate |]. simpl in H. injection H as -> ->.
        simpl in Hid. apply andb_true_iff in Hid as [Hc Hr]. rewrite Hc.
        destruct (run_identifier_tail r nl Hr) as [_ ->]; [reflexivity |].
        reflexivity.
Qed.

(** ** The scan and the replacement, unfolded one step at a time *)

Lemma length_after (cls : ascii -> bool) (s : string) :
  String.length (after cls s) <= String.length s.
Proof.
  induction s as [|c s IH]; simpl; [lia |].
  destruct (cls c); simpl; lia.
Qed.

Lemma placeholder_at_after (c : ascii) (s1 : string) :
  Re.placeholder_at (String "."%char (String "{"%char (String c s1)))
  = if Re.name_start c then
      match after Re.name_char s1 with
      | String "}"%char (String x tl') =>
          if Re.any_char x then Some (String c (run Re.name_char s1), tl') else None
      | _ => None
      end
    else None.
Proof.
  unfold Re.placeholder_at. destruct (Re.name_start c); [|reflexivity].
  rewrite star_longest; [reflexivity |].
  intros taken x t Hx.
  destruct x as [[] [] [] [] [] [] [] []]; try reflexivity;
    vm_compute in Hx; discriminate.
Qed.

Lemma placeholder_at_not_dot (c : ascii) (s : string) :
  not_dot c = true -> Re.placeholder_at (String c s) = None.
Proof.
  intros Hc.
  destruct c as [[] [] [] [] [] [] [] []]; try reflexivity;
    vm_compute in Hc; discriminate.
Qed.

Lemma placeholder_at_shorter (s name rest : string) :
  Re.placeholder_at s = Some (name, rest) -> String.length rest < String.length s.
Proof.
  destruct s as [|a [|b [|c s1]]]; try discriminate.
  - destruct a as [[] [] [] [] [] [] [] []]; discriminate.
  - destruct a as [[] [] [] [] [] [] [] []]; try discriminate;
      destruct b as [[] [] [] [] [] [] [] []]; discriminate.
  - destruct (Ascii.eqb_spec a "."%char) as [->|Ha].
    + destruct (Ascii.eqb_spec b "{"%char) as [->|Hb].
      * rewrite placeholder_at_after.
        destruct (Re.name_start c); [|discriminate].
        pose proof (length_after Re.name_char s1) as Hlen.
        destruct (after Re.name_char s1) as [|y [|x tl']]; try discriminate.
        -- destruct y as [[] [] [] [] [] [] [] []]; discriminate.
        -- destruct y as [[] [] [] [] [] [] [] []]; try discriminate.
           destruct (Re.any_char x); [|discriminate].
           intros [= _ Heq]. subst rest. simpl in *. lia.
      * intros H. exfalso.
        destruct b as [[] [] [] [] [] [] [] []]; try discriminate. now apply Hb.
    + intros H. rewrite placeholder_at_not_dot in H; [discriminate |].
      unfold not_dot. now destruct (Ascii.eqb_spec a "."%char).
Qed.

Lemma findall_from_enough (n m : nat) (s : string) :
  String.length s < n -> String.length s < m ->
  Re.findall_from n s = Re.findall_from m s.
Proof.
  revert m s. induction n as [|n IH]; intros m s Hn Hm; [lia |].
  destruct m as [|m]; [lia |]. simpl.
  destruct (Re.placeholder_at s) as [[name rest]|] eqn:Hp.
  - apply placeholder_at_shorter in Hp. f_equal. apply IH; lia.
  - destruct s as [|c s]; [reflexivity |]. simpl in *. apply IH; lia.
Qed.

Lemma findall_eq (s : string) :
  Re.findall s =
  match Re.placeholder_at s with
  | Some (name, rest) => name :: Re.findall rest
  | None =>
      match s with
      | EmptyString => []
      | String _ s' => Re.findall s'
      end
  end.
Proof.
  unfold Re.findall at 1. simpl.
  destruct (Re.placeholder_at s) as [[name rest]|] eqn:Hp.
  - apply placeholder_at_shorter in Hp. f_equal.
    apply findall_from_enough; lia.
  - destruct s as [|c s]; [reflexivity |]. apply findall_from_enough; simpl; lia.
Qed.

Lemma strip_prefix_length (p s rest : string) :
  Py.strip_prefix p s = Some rest ->
  String.length s = String.length p + String.length rest.
Proof.
  revert s. induction p as [|a p IH]; intros s; simpl.
  - now intros [= ->].
  - destruct s as [|b s]; [discriminate |].
    destruct (Ascii.eqb a b); [|discriminate].
    intros H. apply IH in H. simpl. lia.
Qed.

Lemma strip_prefix_append (p s : string) : Py.strip_prefix p (p +:+ s) = Some s.
Proof.
  induction p as [|a p IH]; simpl; [reflexivity |].
  now rewrite Ascii.eqb_refl.
Qed.

Lemma replace_from_enough (n m : nat) (a : ascii) (o new s : string) :
  String.length s < n -> String.length s < m ->
  Py.replace_from n (String a o) new s = Py.replace_from m (String a o) new s.
Proof.
  revert m s. induction n as [|n IH]; intros m s Hn Hm; [lia |].
  destruct m as [|m]; [lia |]. cbn [Py.replace_from].
  destruct (Py.strip_prefix (String a o) s) as [rest|] eqn:Hp.
  - apply strip_prefix_length in Hp. simpl in Hp. f_equal. apply IH; lia.
  - destruct s as [|c s]; [reflexivity |]. simpl in *. f_equal. apply IH; lia.
Qed.

Lemma replace_eq (a : ascii) (o new s : string) :
  Py.replace s (String a o) new =
  match Py.strip_prefix (String a o) s with
  | Some rest => new +:+ Py.replace rest (String a o) new
  | None =>
      match s with
      | EmptyString => EmptyString
      | String c s' => String c (Py.replace s' (String a o) new)
      end
  end.
Proof.
  unfold Py.replace at 1. cbn [Py.replace_from].
  destruct (Py.strip_prefix (String a o) s) as [rest|] eqn:Hp.
  - apply strip_prefix_length in Hp. simpl in Hp. f_equal.
    apply replace_from_enough; lia.
  - destruct s as [|c s]; reflexivity.
Qed.

(** Texts without a dot hold no placeholder and are left alone. *)
Lemma findall_no_dot (s : string) : no_dot s = true -> Re.findall s = [].
Proof.
  induction s as [|c s IH]; intros H; rewrite findall_eq; [reflexivity |].
  unfold no_dot in H. simpl in H. apply andb_true_iff in H as [Hc Hs].
  rewrite (placeholder_at_not_dot c s Hc). now apply IH.
Qed.

Lemma findall_skip (pre s : string) :
  no_dot pre = true -> Re.findall (pre +:+ s) = Re.findall s.
Proof.
  induction pre as [|c pre IH]; intros H; [reflexivity |].
  unfold no_dot in H. simpl in H. apply andb_true_iff in H as [Hc Hs].
  simpl. rewrite findall_eq, (placeholder_at_not_dot c _ Hc). now apply IH.
Qed.

Lemma replace_no_dot (o new s : string) :
  no_dot s = true -> Py.replace s (String "."%char o) new = s.
Proof.
  induction s as [|c s IH]; intros H; rewrite replace_eq; [reflexivity |].
  unfold no_dot in H. simpl in H. apply andb_true_iff in H as [Hc Hs].
  cbn [Py.strip_prefix]. unfold not_dot in Hc.
  destruct (Ascii.eqb_spec c "."%char) as [->|Hne]; [discriminate |].
  destruct (Ascii.eqb_spec "."%char c) as [<-|_]; [now destruct Hne |].
  now rewrite IH.
Qed.

Lemma replace_skip (pre o new s : string) :
  no_dot pre = true ->
  Py.replace (pre +:+ s) (String "."%char o) new
  = pre +:+ Py.replace s (String "."%char o) new.
Proof.
  induction pre as [|c pre IH]; intros H; [reflexivity |].
  unfold no_dot in H. simpl in H. apply andb_true_iff in H as [Hc Hs].
  cbn [String.append]. rewrite replace_eq. cbn [Py.strip_prefix]. unfold not_dot in Hc.
  destruct (Ascii.eqb_spec c "."%char) as [->|Hne]; [discriminate |].
  destruct (Ascii.eqb_spec "."%char c) as [<-|_]; [now destruct Hne |].
  now rewrite IH.
Qed.

Lemma replace_hit (a : ascii) (o new s : string) :
  Py.replace (String a o +:+ s) (String a o) new
  = new +:+ Py.replace s (String a o) new.
Proof. now rewrite replace_eq, strip_prefix_append. Qed.


(** The scan at a placeholder-shaped text: a name in braces after a dot,
    followed by one character that is not a newline. *)
Lemma findall_placeholder (name : string) (x : ascii) (post : string) :
  identifier name = true -> Re.any_char x = true ->
  Re.findall (".{" +:+ name +:+ "}" +:+ String x post) = name :: Re.findall post.
Proof.
  intros Hid Hx. destruct name as [|c r]; [discriminate |].
  simpl in Hid. apply andb_true_iff in Hid as [Hc Hr].
  rewrite findall_eq.
  change (".{" +:+ String c r +:+ "}" +:+ String x post)
    with (String "."%char (String "{"%char (String c (r +:+ String "}"%char (String x post))))).
  rewrite placeholder_at_after, Hc.
  destruct (run_identifier_tail r (String "}"%char (String x post)) Hr) as [-> ->];
    [reflexivity |].
  now rewrite Hx.
Qed.

(** ** Substitution *)

Section Substitution.

Variable str_container : node -> string.

Lemma placeholder_append (name post : string) :
  placeholder name +:+ post = ".{" +:+ name +:+ "}" +:+ String "."%char post.
Proof.
  unfold placeholder. simpl. now rewrite append_assoc.
Qed.



(** The scan looks a name up whenever the first dot of the text opens a
    placeholder shape closed by any character but a newline. *)
Lemma substitute_unregistered (consts : gset string) (toml_doc : node)
    (pre name : string) (x : ascii) (post : string) :
  no_dot pre = true -> identifier name = true -> Re.any_char x = true ->
  name ∉ consts ->
  replace_constants_in_string str_container consts
    (pre +:+ ".{" +:+ name +:+ "}" +:+ String x post) toml_doc
  = Raise (UndefinedConstant name).
Proof.
  intros Hpre Hid Hx Hout. unfold replace_constants_in_string.
  rewrite (findall_skip pre _ Hpre), (findall_placeholder name x post Hid Hx).
  cbn [replace_matches]. now destruct (decide (name ∈ consts)).
Qed.


(** X7: one placeholder between two texts without dots: the text [str]
    gives for the value takes its place and nothing else changes; the text
    put in is not scanned again, whatever it holds. *)
Lemma substitute_single (consts : gset string) (toml_doc : node)
    (pre name post : string) (found : option node) :
  no_dot pre = true -> identifier name = true -> no_dot post = true ->
  name ∈ consts -> get_constant_value toml_doc name = Ok found ->
  replace_constants_in_string str_container consts
    (pre +:+ placeholder name +:+ post) toml_doc
  = Ok (pre +:+ str str_container found +:+ post).
Proof.
  intros Hpre Hid Hpost Hin Hget. unfold replace_constants_in_string.
  rewrite (findall_skip pre _ Hpre), placeholder_append.
  rewrite (findall_placeholder name "."%char post Hid eq_refl).
  rewrite (findall_no_dot post Hpost), <- placeholder_append.
  cbn [replace_matches]. destruct (decide (name ∈ consts)); [|contradiction].
  rewrite Hget. cbn [mbind result_bind]. f_equal.
  unfold placeholder.
  change (".{" +:+ name +:+ "}.") with (String "."%char ("{" +:+ name +:+ "}.")).
  rewrite (replace_skip pre _ _ _ Hpre). f_equal.
  rewrite replace_hit. f_equal. now apply replace_no_dot.
Qed.


End Substitution.

(** ** The serializer *)

Section Serializer.

Variable str_container : node -> string.

(** process_value hands a list to process_array and a dict to process_dict. *)
Lemma process_value_list (consts : gset string) (arr : list node) (d : nat)
    (toml_doc : node) :
  process_value str_container consts (VList arr) d toml_doc
  = process_array str_container consts arr d toml_doc.
Proof.
  unfold process_array. cbn [process_value]. f_equal.
  induction arr as [|item rest IH]; [reflexivity |].
  cbn [process_items]. now rewrite IH.
Qed.

Lemma process_value_dict (consts : gset string) (kind : table_kind) (comment : string)
    (obj : list (string * node)) (d : nat) (toml_doc : node) :
  process_value str_container consts (VDict kind comment obj) d toml_doc
  = process_dict str_container consts obj d toml_doc.
Proof.
  unfold process_dict. cbn [process_value]. f_equal.
  induction obj as [|[key v] rest IH]; [reflexivity |].
  cbn [process_entries]. now rewrite IH.
Qed.



End Serializer.

(** ** Discovery *)

Lemma register_app (a b : list met) (consts : gset string) :
  register (a ++ b)%list consts = (consts' ← register a consts; register b consts').
Proof.
  revert consts. induction a as [|[name|] a IH]; intros consts; simpl; [reflexivity | |reflexivity].
  destruct (negb (Re.name_pattern_match name)); [reflexivity |].
  destruct (decide (name ∈ consts)); [reflexivity |]. apply IH.
Qed.

Lemma add_constants_register (decls : list (string * node)) (consts : gset string) :
  add_constants decls consts = register (map (fun kv => Declares (fst kv)) decls) consts.
Proof.
  revert consts. induction decls as [|[name v] decls IH]; intros consts; simpl; [reflexivity |].
  destruct (negb (Re.name_pattern_match name)); [reflexivity |].
  destruct (decide (name ∈ consts)); [reflexivity |]. apply IH.
Qed.

(** collect_constants is that pass over what [discovered] lists. *)
Lemma collect_constants_register (obj : node) :
  forall consts, collect_constants obj consts = register (discovered obj) consts.
Proof.
  induction obj as [| | | |elems IH|kind comment entries IH|] using node_ind;
    intros consts; try reflexivity.
  - cbn [collect_constants discovered]. revert consts.
    induction IH as [|item elems Hitem _ IHelems]; intros consts; [reflexivity |].
    rewrite register_app, <- Hitem.
    destruct (collect_constants item consts) as [consts'|e]; [|reflexivity].
    apply IHelems.
  - cbn [collect_constants discovered]. revert consts.
    induction IH as [|[key value] entries Hvalue _ IHentries]; intros consts; [reflexivity |].
    rewrite register_app. simpl in Hvalue.
    destruct (is_constants key).
    + destruct value; try reflexivity.
      rewrite <- add_constants_register.
      destruct (add_constants _ consts) as [consts'|e]; [|reflexivity].
      apply IHentries.
    + rewrite <- Hvalue.
      destruct (collect_constants value consts) as [consts'|e]; [|reflexivity].
      apply IHentries.
Qed.

(** Valid declarations without a repeated name are all registered. *)
Lemma register_fresh (ms : list met) :
  Forall declares_valid ms -> NoDup ms ->
  forall consts, (forall name, Declares name ∈ ms -> name ∉ consts) ->
  exists consts',
    register ms consts = Ok consts' /\
    forall name, name ∈ consts' <-> name ∈ consts \/ Declares name ∈ ms.
Proof.
  induction 1 as [|[name|] ms Hvalid _ IH]; intros Hnodup consts Hfresh.
  - exists consts. split; [reflexivity |]. intros name.
    rewrite elem_of_nil. tauto.
  - apply NoDup_cons in Hnodup as [Hnew Hnodup]. simpl in Hvalid.
    cbn [register]. rewrite Hvalid. cbn [negb].
    destruct (decide (name ∈ consts)) as [Hin|_].
    { exfalso. apply (Hfresh name); [set_solver | exact Hin]. }
    destruct (IH Hnodup ({[name]} ∪ consts)) as (consts' & Hreg & Hmem).
    { intros other Hother [Heq%elem_of_singleton|Hin]%elem_of_union.
      - subst other. contradiction.
      - apply (Hfresh other); [set_solver | exact Hin]. }
    exists consts'. split; [exact Hreg |].
    intros other. rewrite Hmem, elem_of_union, elem_of_singleton, elem_of_cons.
    split.
    + intros [[Heq|Hin]|Hin]; [right; left; now rewrite Heq | now left | now right; right].
    + intros [Hin|[Heq|Hin]]; [left; now right | left; left; now injection Heq | now right].
  - destruct Hvalid.
Qed.

(** C3 (amended): when discovery, which does not look inside a constants
    table for further constants tables, meets the declaration of a name a
    second time, and everything it met before were declarations of valid,
    pairwise different names, it fails with DuplicateConstant naming it. *)
Theorem duplicate_constant_detected (toml_doc : node) (pre mid post : list met)
    (name : string) :
  discovered toml_doc = (pre ++ Declares name :: mid ++ Declares name :: post)%list ->
  Forall declares_valid (pre ++ Declares name :: mid)%list ->
  NoDup (pre ++ Declares name :: mid)%list ->
  collect_constants toml_doc ∅ = Raise (DuplicateConstant name).
Proof.
  intros Hmet Hvalid Hnodup.
  rewrite collect_constants_register, Hmet.
  replace (pre ++ Declares name :: mid ++ Declares name :: post)%list
    with ((pre ++ Declares name :: mid) ++ Declares name :: post)%list
    by (rewrite <- app_assoc; reflexivity).
  rewrite register_app.
  destruct (register_fresh _ Hvalid Hnodup ∅) as (consts' & Hreg & Hmem);
    [intros other _; apply not_elem_of_empty |].
  rewrite Hreg.
  cbn [mbind result_bind register].
  apply Forall_app in Hvalid as [_ Hvalid]. apply Forall_cons in Hvalid as [Hname _].
  simpl in Hname. rewrite Hname. cbn [negb].
  destruct (decide (name ∈ consts')) as [_|Hout]; [reflexivity |].
  exfalso. apply Hout, Hmem. right.
  apply elem_of_app. right. apply elem_of_cons. now left.
Qed.

(** ** Resolution on plain documents

    On the documents the tests use, where constants tables hold scalars
    only, resolution never raises and finds every name discovery
    registered. *)

Lemma get_constant_value_plain_decls (kind : table_kind) (comment : string)
    (decls : list (string * node)) (name : string) :
  plain_decls decls = true ->
  get_constant_value (VDict kind comment decls) name = Ok None.
Proof.
  intros Hplain. cbn [get_constant_value].
  induction decls as [|[key v] decls IH]; [reflexivity |].
  simpl in Hplain. apply andb_true_iff in Hplain as [Hkv Hplain].
  apply andb_true_iff in Hkv as [Hkey Hv].
  apply negb_true_iff in Hkey. rewrite Hkey. cbn [mbind result_bind].
  destruct v; try discriminate; cbn [get_constant_value mbind result_bind];
    now apply IH.
Qed.

Lemma add_constants_mem (decls : list (string * node)) :
  forall consts consts', add_constants decls consts = Ok consts' ->
  forall name, name ∈ consts' ->
  name ∈ consts \/ existsb (fun kv => String.eqb (fst kv) name) decls = true.
Proof.
  induction decls as [|[key v] decls IH]; intros consts consts' Hadd name Hin.
  - injection Hadd as <-. now left.
  - cbn [add_constants] in Hadd.
    destruct (negb (Re.name_pattern_match key)); [discriminate |].
    destruct (decide (key ∈ consts)); [discriminate |].
    destruct (IH _ _ Hadd name Hin) as [Hhere|Hlater].
    + apply elem_of_union in Hhere as [Heq%elem_of_singleton|Hold]; [|now left].
      right. simpl. subst key. now rewrite String.eqb_refl.
    + right. simpl. rewrite Hlater. apply orb_true_r.
Qed.

Lemma lookup_key_declared (decls : list (string * node)) (name : string) :
  existsb (fun kv => String.eqb (fst kv) name) decls = true ->
  exists v, lookup_key name decls = Some v.
Proof.
  induction decls as [|[key v] decls IH]; [discriminate |]. simpl.
  destruct (String.eqb key name); [now exists v | exact IH].
Qed.

Lemma registered_names_resolve (obj : node) :
  forall consts consts',
  plain obj = true -> collect_constants obj consts = Ok consts' ->
  (forall name, exists found, get_constant_value obj name = Ok found) /\
  (forall name, name ∈ consts' ->
     name ∈ consts \/ exists v, get_constant_value obj name = Ok (Some v)).
Proof.
  induction obj as [| | | |elems IH|kind comment entries IH|] using node_ind;
    intros consts consts' Hplain Hcollect;
    try (injection Hcollect as <-;
         split; [intros name; eexists; reflexivity | intros name Hin; now left]).
  - cbn [collect_constants get_constant_value plain] in *.
    revert consts consts' Hplain Hcollect.
    induction IH as [|item elems Hitem _ IHelems]; intros consts consts' Hplain Hcollect.
    + injection Hcollect as <-.
      split; [intros name; eexists; reflexivity | intros name Hin; now left].
    + apply andb_true_iff in Hplain as [Hp1 Hp2].
      destruct (collect_constants item consts) as [consts1|e] eqn:Hc1; [|discriminate].
      cbn [mbind result_bind] in Hcollect.
      destruct (Hitem _ _ Hp1 Hc1) as [Hr1 Hm1].
      destruct (IHelems _ _ Hp2 Hcollect) as [Hr2 Hm2].
      split.
      * intros name. destruct (Hr1 name) as [found Hfound]. rewrite Hfound.
        cbn [mbind result_bind]. destruct found; [eexists; reflexivity | apply Hr2].
      * intros name Hin. destruct (Hr1 name) as [found Hfound]. rewrite Hfound.
        cbn [mbind result_bind].
        destruct (Hm2 name Hin) as [Hin1|Hlater].
        -- destruct (Hm1 name Hin1) as [Hold|[v Hv]]; [now left |].
           right. exists v. rewrite Hv in Hfound. now injection Hfound as <-.
        -- right. destruct found as [x|]; [now exists x | exact Hlater].
  - cbn [collect_constants get_constant_value plain] in *.
    revert consts consts' Hplain Hcollect.
    induction IH as [|[key value] entries Hvalue _ IHentries];
      intros consts consts' Hplain Hcollect.
    + injection Hcollect as <-.
      split; [intros name; eexists; reflexivity | intros name Hin; now left].
    + apply andb_true_iff in Hplain as [Hp1 Hp2]. simpl in Hvalue.
      destruct (is_constants key) eqn:Hkey.
      * destruct value as [| | | | |k c decls|]; try discriminate.
        destruct (add_constants decls consts) as [consts1|e] eqn:Hadd; [|discriminate].
        cbn [mbind result_bind] in Hcollect.
        destruct (IHentries _ _ Hp2 Hcollect) as [Hr2 Hm2].
        assert (Hstep : forall name,
                  existsb (fun kv => String.eqb (fst kv) name) decls = false ->
                  get_constant_value (VDict k c decls) name = Ok None)
          by (intros name _; now apply get_constant_value_plain_decls).
        split.
        -- intros name. cbn [py_in mbind result_bind].
           destruct (existsb _ decls) eqn:Hex.
           ++ destruct (lookup_key_declared decls name Hex) as [v Hv].
              cbn [py_getitem]. rewrite Hv. eexists; reflexivity.
           ++ rewrite (Hstep name Hex). cbn [mbind result_bind]. apply Hr2.
        -- intros name Hin. cbn [py_in mbind result_bind].
           destruct (existsb _ decls) eqn:Hex.
           ++ destruct (lookup_key_declared decls name Hex) as [v Hv].
              right. exists v. cbn [py_getitem]. now rewrite Hv.
           ++ rewrite (Hstep name Hex). cbn [mbind result_bind].
              destruct (Hm2 name Hin) as [Hin1|Hlater]; [|now right].
              destruct (add_constants_mem _ _ _ Hadd name Hin1) as [Hold|Hdecl];
                [now left | congruence].
      * destruct (collect_constants value consts) as [consts1|e] eqn:Hc1; [|discriminate].
        cbn [mbind result_bind] in Hcollect.
        destruct (Hvalue _ _ Hp1 Hc1) as [Hr1 Hm1].
        destruct (IHentries _ _ Hp2 Hcollect) as [Hr2 Hm2].
        split.
        -- intros name. cbn [mbind result_bind].
           destruct (Hr1 name) as [found Hfound]. rewrite Hfound.
           cbn [mbind result_bind]. destruct found; [eexists; reflexivity | apply Hr2].
        -- intros name Hin. cbn [mbind result_bind].
           destruct (Hr1 name) as [found Hfound]. rewrite Hfound.
           cbn [mbind result_bind].
           destruct (Hm2 name Hin) as [Hin1|Hlater].
           ++ destruct (Hm1 name Hin1) as [Hold|[v Hv]]; [now left |].
              right. exists v. rewrite Hv in Hfound. now injection Hfound as <-.
           ++ right. destruct found as [x|]; [now exists x | exact Hlater].
Qed.

(** ** The section emitter *)

Section Emitter.

Variable str_container : node -> string.
Variable set_iter : gset string -> list string.

Lemma process_sections_skip (consts : gset string) (toml_doc : node) (d : nat)
    (key : string) (v : node) (rest : list (string * node)) :
  is_section v = false ->
  process_sections str_container consts ((key, v) :: rest) d toml_doc
  = process_sections str_container consts rest d toml_doc.
Proof.
  intros Hv. destruct v as [| | | | |kind comment entries|]; try reflexivity.
  destruct kind; try reflexivity. discriminate.
Qed.



End Emitter.

(** ** The validator and a trailing newline *)

(** C7 (code bug): the validator also accepts an identifier followed by one
    newline, which the grammar (letters, digits and underscores, nothing
    else) excludes; the [$] of the pattern matches before a final newline. *)
Theorem validator_accepts_trailing_newline (s : string) :
  identifier s = true ->
  Re.name_pattern_match (s +:+ nl) = true /\ identifier (s +:+ nl) = false.
Proof.
  intros Hid. split.
  - apply name_pattern_match_spec. right. now exists s.
  - destruct s as [|c r]; [discriminate |]. simpl.
    rewrite all_chars_append. simpl.
    now rewrite andb_false_r, andb_false_r.
Qed.

Lemma validator_accepts_port_newline :
  Re.name_pattern_match ("port" +:+ nl) = true /\ identifier ("port" +:+ nl) = false.
Proof.
  apply (validator_accepts_trailing_newline "port"). reflexivity.
Defined.

(** ** The program on concrete documents *)

Import Examples.

(** C1 (code bug): with no constant registered, the string [.{X}a] makes
    the substitution fail with UndefinedConstant although it contains no
    [.{NAME}.] for any NAME: the last dot of the pattern is not escaped and
    matches the [a]. *)
Theorem undefined_constant_without_placeholder (str_container : node -> string)
    (toml_doc : node) :
  replace_constants_in_string str_container ∅ ".{X}a" toml_doc
  = Raise (UndefinedConstant "X")
  /\ forall name, Py.contains (placeholder name) ".{X}a" = false.
Proof.
  split.
  - apply (substitute_unregistered str_container ∅ toml_doc EmptyString "X" "a"%char
             EmptyString); try reflexivity.
    apply not_elem_of_empty.
  - intros name. unfold placeholder. cbn.
    repeat (first
      [ reflexivity
      | match goal with
        | |- context [Ascii.eqb ?a ?b] => destruct (Ascii.eqb a b)
        | |- context [String.append ?n _] => is_var n; destruct n
        end; cbn ]).
Qed.

(** C2 (code bug): discovery registers the boolean constant FLAG, its
    declaration renders it as [true], yet the substitution puts [True] in
    place of [.{FLAG}.]: it converts the value with [str], not with the
    serializer. *)
Theorem boolean_constant_substituted_as_True (str_container : node -> string) :
  collect_constants flag_doc ∅ = Ok {["FLAG"]}
  /\ replace_constants_in_string str_container {["FLAG"]} "on=.{FLAG}." flag_doc
     = Ok "on=True"
  /\ process_value str_container {["FLAG"]} (VBool true) 1 flag_doc = Ok "true".
Proof.
  repeat split; vm_compute; reflexivity.
Qed.

(** C4 (code bug): the table [host = "localhost"], [port = 8080] at depth 1
    renders, whatever the constants and the document, as an open bracket
    line, the two entry lines behind one tab each and joined by a comma and
    a newline, and the closing bracket; the comma is not in the claimed
    text, nor in what test_main.py expects of a nested table.  As a section
    of a document the same entries come out one per line without a comma. *)
Theorem host_port_rendering (str_container : node -> string) (consts : gset string)
    (toml_doc : node) (kind : table_kind) (comment : string) :
  process_value str_container consts (VDict kind comment host_port) 1 toml_doc
  = Ok ("$[" +:+ nl +:+ tab1 +:+ "host = " +:+ quoted "localhost" +:+ "," +:+ nl
        +:+ tab1 +:+ "port = 8080" +:+ nl +:+ "]")
  /\ process_dict str_container consts host_port 1 toml_doc
     = Ok ("$[" +:+ nl +:+ tab1 +:+ "host = " +:+ quoted "localhost" +:+ "," +:+ nl
           +:+ tab1 +:+ "port = 8080" +:+ nl +:+ "]")
  /\ process_object str_container consts server_doc 1
     = Ok (tab1 +:+ "server = $[" +:+ nl
           +:+ tab1 +:+ tab1 +:+ "host = " +:+ quoted "localhost" +:+ nl
           +:+ tab1 +:+ tab1 +:+ "port = 8080" +:+ nl
           +:+ tab1 +:+ "]" +:+ nl).
Proof.
  repeat split; vm_compute; reflexivity.
Qed.

(** C6 (code bug): discovery succeeds on both documents and registers X.
    On the first the search for X ends in a TypeError, raised when it tests
    [X in 5] inside the constants table that declares the constant named
    [constants]; on the second it returns 1, found in a table that
    discovery never visited, while X was registered from the table that
    gives it 2. *)
Theorem registered_name_not_resolved :
  collect_constants shadow_doc ∅ = Ok {["constants"; "X"]}
  /\ get_constant_value shadow_doc "X" = Raise TypeErrorNotContainer
  /\ collect_constants nested_doc ∅ = Ok {["A"; "X"]}
  /\ discovered nested_doc = [Declares "A"; Declares "X"]
  /\ get_constant_value nested_doc "X" = Ok (Some (VInt 1)).
Proof.
  repeat split; vm_compute; reflexivity.
Qed.

(** C8 (code bug): the declarations come out in the order in which the
    loop yields the elements of the set, and nothing in the program fixes
    that order: with the two constants of the test document, one order of
    the set gives MAX_CONNECTIONS first, the other TIMEOUT first, and the
    translations differ. *)
Theorem declaration_order_follows_set_order (str_container : node -> string) :
  collect_constants constants_doc ∅ = Ok {["MAX_CONNECTIONS"; "TIMEOUT"]}
  /\ (forall names, ascending names ≡ₚ descending names)
  /\ process_constants str_container ascending {["MAX_CONNECTIONS"; "TIMEOUT"]} constants_doc
     = Ok ("def MAX_CONNECTIONS := 100;" +:+ nl +:+ "def TIMEOUT := 30;")
  /\ process_constants str_container descending {["MAX_CONNECTIONS"; "TIMEOUT"]} constants_doc
     = Ok ("def TIMEOUT := 30;" +:+ nl +:+ "def MAX_CONNECTIONS := 100;")
  /\ main str_container ascending constants_doc
     <> main str_container descending constants_doc.
Proof.
  repeat split; try (vm_compute; reflexivity).
  - intros names. unfold ascending, descending. now rewrite reverse_Permutation.
  - vm_compute. discriminate.
Qed.

(** Counterexample to C3 as stated: X is declared under two constants
    tables and discovery succeeds. *)
Lemma nested_duplicate_not_detected :
  collect_constants inner_doc ∅ = Ok {["X"; "Y"]}.
Proof. vm_compute. reflexivity. Qed.

Lemma duplicate_detected_at_depth :
  collect_constants twice_doc ∅ = Raise (DuplicateConstant "X").
Proof.
  apply (duplicate_constant_detected twice_doc [Declares "A"] [Declares "B"] [] "X").
  - reflexivity.
  - repeat constructor.
  - apply (bool_decide_unpack (NoDup _)). vm_compute. exact I.
Defined.







(** * Further properties of the translator *)

(** ** The validator *)

(** X1: the validator accepts a string exactly when it is an identifier
    (one letter or underscore, then letters, digits and underscores) or
    such an identifier followed by one newline. *)
Theorem validator_exact (s : string) :
  Re.name_pattern_match s = true <->
  identifier s = true \/ exists s', s = s' +:+ nl /\ identifier s' = true.
Proof.
  split.
  - intros Hmatch. now apply name_pattern_match_spec.
  - intros Hshape. now apply name_pattern_match_spec.
Qed.

(** ** What the scan finds *)

Lemma contains_eq (p h : string) :
  Py.contains p h =
  match Py.strip_prefix p h with
  | Some _ => true
  | None =>
      match h with
      | EmptyString => false
      | String _ rest => Py.contains p rest
      end
  end.
Proof. destruct h; reflexivity. Qed.

Lemma contains_prefix (p t : string) : Py.contains p (p +:+ t) = true.
Proof. now rewrite contains_eq, strip_prefix_append. Qed.

Lemma contains_cons (p : string) (c : ascii) (s : string) :
  Py.contains p s = true -> Py.contains p (String c s) = true.
Proof.
  intros H. rewrite contains_eq. now destruct (Py.strip_prefix p (String c s)).
Qed.

Lemma contains_app_l (p q t : string) :
  Py.contains p t = true -> Py.contains p (q +:+ t) = true.
Proof.
  intros H. induction q as [|c q IH]; [exact H |].
  simpl. now apply contains_cons.
Qed.

(** A match of the placeholder pattern at the start of a text: the text
    is a dot, the name in braces, one character that is not a newline, and
    the rest; the name is an identifier. *)
Lemma placeholder_at_shape (s name rest : string) :
  Re.placeholder_at s = Some (name, rest) ->
  identifier name = true /\
  exists x, Re.any_char x = true /\ s = ".{" +:+ name +:+ "}" +:+ String x rest.
Proof.
  destruct s as [|a [|b [|c s1]]]; try discriminate.
  - destruct a as [[] [] [] [] [] [] [] []]; discriminate.
  - destruct a as [[] [] [] [] [] [] [] []]; try discriminate;
      destruct b as [[] [] [] [] [] [] [] []]; discriminate.
  - destruct (Ascii.eqb_spec a "."%char) as [->|Ha].
    + destruct (Ascii.eqb_spec b "{"%char) as [->|Hb].
      * rewrite placeholder_at_after.
        destruct (Re.name_start c) eqn:Hc; [|discriminate].
        destruct (after_split Re.name_char s1) as [Hs1 Hrun].
        destruct (after Re.name_char s1) as [|y [|x tl']]; try discriminate.
        -- destruct y as [[] [] [] [] [] [] [] []]; discriminate.
        -- destruct (Ascii.eqb_spec y "}"%char) as [->|Hy].
           ++ destruct (Re.any_char x) eqn:Hx; [|discriminate].
              intros [= Hname Hrest]. subst name rest. split.
              ** simpl. now rewrite Hc, Hrun.
              ** exists x. split; [exact Hx |]. simpl. now rewrite <- Hs1.
           ++ intros H. exfalso.
              destruct y as [[] [] [] [] [] [] [] []]; try discriminate. now apply Hy.
      * intros H. exfalso.
        destruct b as [[] [] [] [] [] [] [] []]; try discriminate. now apply Hb.
    + intros H. rewrite placeholder_at_not_dot in H; [discriminate |].
      unfold not_dot. now destruct (Ascii.eqb_spec a "."%char).
Qed.

Lemma findall_from_found (fuel : nat) :
  forall s name, name ∈ Re.findall_from fuel s ->
  identifier name = true /\ Py.contains (".{" +:+ name +:+ "}") s = true.
Proof.
  induction fuel as [|fuel IH]; intros s name Hin; [now apply elem_of_nil in Hin |].
  cbn [Re.findall_from] in Hin.
  destruct (Re.placeholder_at s) as [[found rest]|] eqn:Hp.
  - apply placeholder_at_shape in Hp as (Hid & x & _ & Hs).
    apply elem_of_cons in Hin as [->|Hin].
    + split; [exact Hid |]. rewrite Hs.
      replace (".{" +:+ found +:+ "}" +:+ String x rest)
        with ((".{" +:+ found +:+ "}") +:+ String x rest)
        by (simpl; now rewrite append_assoc).
      apply contains_prefix.
    + destruct (IH rest name Hin) as [Hname Hrest]. split; [exact Hname |].
      rewrite Hs.
      replace (".{" +:+ found +:+ "}" +:+ String x rest)
        with ((".{" +:+ found +:+ "}" +:+ String x EmptyString) +:+ rest)
        by (simpl; rewrite !append_assoc; reflexivity).
      now apply contains_app_l.
  - destruct s as [|c s]; [now apply elem_of_nil in Hin |].
    destruct (IH s name Hin) as [Hname Hs]. split; [exact Hname |].
    now apply contains_cons.
Qed.

(** X2: every name the scan of a string yields is an identifier, and the
    string contains that name in braces after a dot. *)
Theorem findall_yields_identifiers (s name : string) :
  name ∈ Re.findall s ->
  identifier name = true /\ Py.contains (".{" +:+ name +:+ "}") s = true.
Proof.
  unfold Re.findall. apply findall_from_found.
Qed.

Lemma scan_of_two_names :
  identifier "B" = true /\ Py.contains ".{B}" "a .{A}b .{B}c" = true.
Proof.
  apply (findall_yields_identifiers "a .{A}b .{B}c" "B").
  vm_compute. apply elem_of_cons. right. apply elem_of_cons. now left.
Defined.

(** ** The errors of resolution and of substitution *)

Lemma get_constant_value_list_cons (item : node) (elems : list node) (name : string) :
  get_constant_value (VList (item :: elems)) name
  = (found ← get_constant_value item name;
     match found with
     | Some x => Ok (Some x)
     | None => get_constant_value (VList elems) name
     end).
Proof. reflexivity. Qed.

Lemma get_constant_value_dict_cons (kind : table_kind) (comment key : string)
    (value : node) (entries : list (string * node)) (name : string) :
  get_constant_value (VDict kind comment ((key, value) :: entries)) name
  = (hit ← (if is_constants key then py_in name value else Ok false);
     if hit : bool then Some <$> py_getitem value name
     else
       found ← get_constant_value value name;
       match found with
       | Some x => Ok (Some x)
       | None => get_constant_value (VDict kind comment entries) name
       end).
Proof. reflexivity. Qed.

Lemma get_constant_value_type_errors (obj : node) :
  forall name e, get_constant_value obj name = Raise e ->
  e = TypeErrorNotContainer \/ e = TypeErrorIndex.
Proof.
  induction obj as [| | | |elems IH|kind comment entries IH|] using node_ind;
    intros name e Hraise; try discriminate.
  - induction IH as [|item elems Hitem _ IHelems]; [discriminate |].
    rewrite get_constant_value_list_cons in Hraise.
    destruct (get_constant_value item name) as [[x|]|e'] eqn:Hget;
      cbn [mbind result_bind] in Hraise.
    + discriminate.
    + now apply IHelems.
    + injection Hraise as <-. now apply (Hitem name).
  - induction IH as [|[key value] entries Hvalue _ IHentries]; [discriminate |].
    simpl in Hvalue. rewrite get_constant_value_dict_cons in Hraise.
    assert (Hrest : forall found,
              get_constant_value value name = found ->
              match found with
              | Ok _ => True
              | Raise e' => e' = TypeErrorNotContainer \/ e' = TypeErrorIndex
              end).
    { intros [found|e'] Hfound; [exact I | now apply (Hvalue name)]. }
    destruct (is_constants key).
    + destruct (py_in name value) as [[|]|e'] eqn:Hin;
        cbn [mbind result_bind] in Hraise.
      * destruct value; cbn in Hin; try discriminate.
        -- right. cbn in Hraise. congruence.
        -- right. cbn in Hraise. congruence.
        -- injection Hin as Hin.
           destruct (lookup_key_declared _ _ Hin) as [v Hv].
           cbn in Hraise. rewrite Hv in Hraise. discriminate.
      * specialize (Hrest _ eq_refl).
        destruct (get_constant_value value name) as [[x|]|e'];
          cbn [mbind result_bind] in Hraise.
        -- discriminate.
        -- now apply IHentries.
        -- injection Hraise as <-. exact Hrest.
      * injection Hraise as <-.
        destruct value; cbn in Hin; try discriminate; injection Hin as <-; now left.
    + cbn [mbind result_bind] in Hraise. specialize (Hrest _ eq_refl).
      destruct (get_constant_value value name) as [[x|]|e'];
        cbn [mbind result_bind] in Hraise.
      * discriminate.
      * now apply IHentries.
      * injection Hraise as <-. exact Hrest.
Qed.

(** X3: the search for a constant raises nothing but a TypeError: one of
    the two that testing [name in value] and reading [value[name]] raise
    when a key named constants holds something else than a table. *)
Theorem get_constant_value_raises (obj : node) (name : string) (e : error) :
  get_constant_value obj name = Raise e ->
  e = TypeErrorNotContainer \/ e = TypeErrorIndex.
Proof.
  intros Hraise. eapply get_constant_value_type_errors. exact Hraise.
Qed.

Lemma shadow_doc_raises_type_error :
  get_constant_value shadow_doc "X" = Raise TypeErrorNotContainer
  /\ (TypeErrorNotContainer = TypeErrorNotContainer
      \/ TypeErrorNotContainer = TypeErrorIndex).
Proof.
  split; [reflexivity |].
  apply (get_constant_value_raises shadow_doc "X"). reflexivity.
Defined.

Section SubstitutionErrors.

Variable str_container : node -> string.

Lemma replace_matches_undefined (consts : gset string) (toml_doc : node)
    (matches : list string) (name : string) :
  forall value,
  replace_matches str_container consts toml_doc matches value
  = Raise (UndefinedConstant name) <->
  exists before rest,
    matches = (before ++ name :: rest)%list /\ (name ∉ consts) /\
    Forall (fun m => (m ∈ consts) /\ is_ok (get_constant_value toml_doc m) = true) before.
Proof.
  induction matches as [|m matches IH]; intros value.
  - split; [discriminate |]. intros (before & rest & Heq & _).
    now destruct before.
  - cbn [replace_matches]. destruct (decide (m ∈ consts)) as [Hin|Hout].
    + destruct (get_constant_value toml_doc m) as [found|e] eqn:Hget;
        cbn [mbind result_bind].
      * rewrite IH. split.
        -- intros (before & rest & -> & Hname & Hbefore).
           exists (m :: before), rest. split; [reflexivity |]. split; [exact Hname |].
           constructor; [|exact Hbefore]. split; [exact Hin | now rewrite Hget].
        -- intros (before & rest & Heq & Hname & Hbefore).
           destruct before as [|b before]; simpl in Heq.
           ++ injection Heq as -> _. contradiction.
           ++ injection Heq as -> ->. exists before, rest.
              split; [reflexivity |]. split; [exact Hname |].
              now apply Forall_cons in Hbefore as [_ Hbefore].
      * split.
        -- intros [= ->]. apply get_constant_value_type_errors in Hget as [?|?]; discriminate.
        -- intros (before & rest & Heq & Hname & Hbefore).
           destruct before as [|b before]; simpl in Heq.
           ++ injection Heq as -> _. contradiction.
           ++ injection Heq as -> ->.
              apply Forall_cons in Hbefore as [[_ Hok] _].
              rewrite Hget in Hok. discriminate.
    + split.
      * intros [= ->]. exists [], matches. split; [reflexivity |]. split; [exact Hout |].
        constructor.
      * intros (before & rest & Heq & Hname & Hbefore).
        destruct before as [|b before]; simpl in Heq.
        -- now injection Heq as -> _.
        -- injection Heq as -> ->.
           apply Forall_cons in Hbefore as [[Hin _] _]. contradiction.
Qed.

(** X4: the substitution of a string fails with UndefinedConstant naming
    NAME exactly when NAME is the first name of the scan that is not
    registered and every name the scan yields before it is registered and
    resolves. *)
Theorem undefined_constant_exactly (consts : gset string) (toml_doc : node)
    (value name : string) :
  replace_constants_in_string str_container consts value toml_doc
  = Raise (UndefinedConstant name) <->
  exists before rest,
    Re.findall value = (before ++ name :: rest)%list /\ (name ∉ consts) /\
    Forall (fun m => (m ∈ consts) /\ is_ok (get_constant_value toml_doc m) = true) before.
Proof.
  unfold replace_constants_in_string. apply replace_matches_undefined.
Qed.

(** X5: when the substitution fails with UndefinedConstant, the name it
    reports is an identifier that is not registered and that the string
    holds in braces after a dot. *)
Theorem undefined_constant_is_in_the_string (consts : gset string) (toml_doc : node)
    (value name : string) :
  replace_constants_in_string str_container consts value toml_doc
  = Raise (UndefinedConstant name) ->
  (name ∉ consts) /\ identifier name = true
  /\ Py.contains (".{" +:+ name +:+ "}") value = true.
Proof.
  intros Hraise. apply replace_matches_undefined in Hraise
    as (before & rest & Hscan & Hout & _).
  split; [exact Hout |].
  apply findall_from_found with (fuel := S (String.length value)).
  fold (Re.findall value). rewrite Hscan.
  apply elem_of_app. right. apply elem_of_cons. now left.
Qed.

Lemma findall_without_open (s : string) :
  Py.contains ".{" s = false -> Re.findall s = [].
Proof.
  induction s as [|c s IH]; intros Hnone; rewrite findall_eq; [reflexivity |].
  rewrite contains_eq in Hnone.
  destruct (Py.strip_prefix ".{" (String c s)) eqn:Hprefix; [discriminate |].
  destruct (Re.placeholder_at (String c s)) as [[name rest]|] eqn:Hp.
  - apply placeholder_at_shape in Hp as (_ & x & _ & Hs).
    rewrite Hs in Hprefix.
    change (".{" +:+ name +:+ "}" +:+ String x rest)
      with (".{" +:+ (name +:+ "}" +:+ String x rest)) in Hprefix.
    rewrite strip_prefix_append in Hprefix. discriminate.
  - now apply IH.
Qed.

Lemma replace_without_open (consts : gset string) (toml_doc : node) (s : string) :
  Py.contains ".{" s = false ->
  replace_constants_in_string str_container consts s toml_doc = Ok s.
Proof.
  intros Hnone. unfold replace_constants_in_string.
  now rewrite (findall_without_open s Hnone).
Qed.

(** X6: a string that nowhere holds a dot followed by an open brace comes
    back from the substitution unchanged, whatever the constants and the
    document, and renders as itself between double quotes, its own double
    quotes left as they are. *)
Theorem string_without_placeholder_unchanged (consts : gset string) (toml_doc : node)
    (s : string) (d : nat) :
  Py.contains ".{" s = false ->
  replace_constants_in_string str_container consts s toml_doc = Ok s
  /\ process_value str_container consts (VStr s) d toml_doc
     = Ok (Py.str1 Py.dquote +:+ s +:+ Py.str1 Py.dquote).
Proof.
  intros Hnone. pose proof (replace_without_open consts toml_doc s Hnone) as Hsame.
  split; [exact Hsame |].
  cbn [process_value]. now rewrite Hsame.
Qed.

End SubstitutionErrors.

Lemma undefined_after_registered :
  replace_constants_in_string any_text {["TIMEOUT"]} ".{TIMEOUT}. and .{LIMIT}." constants_doc
  = Raise (UndefinedConstant "LIMIT").
Proof.
  apply (undefined_constant_exactly any_text {["TIMEOUT"]} constants_doc
           ".{TIMEOUT}. and .{LIMIT}." "LIMIT").
  exists ["TIMEOUT"], []. split; [reflexivity |]. split.
  - apply (bool_decide_unpack (_ ∉ _)). vm_compute. exact I.
  - repeat constructor; apply elem_of_singleton; reflexivity.
Defined.

Lemma undefined_limit_is_in_the_string :
  ("LIMIT" ∉ ({["TIMEOUT"]} : gset string)) /\ identifier "LIMIT" = true
  /\ Py.contains ".{LIMIT}" ".{TIMEOUT}. and .{LIMIT}." = true.
Proof.
  apply (undefined_constant_is_in_the_string any_text {["TIMEOUT"]} constants_doc
           ".{TIMEOUT}. and .{LIMIT}." "LIMIT").
  vm_compute. reflexivity.
Defined.

Lemma quoted_path_unchanged :
  replace_constants_in_string any_text ∅ "/var/log/my.app{1}.log" constants_doc
  = Ok "/var/log/my.app{1}.log"
  /\ process_value any_text ∅ (VStr "/var/log/my.app{1}.log") 2 constants_doc
     = Ok (Py.str1 Py.dquote +:+ "/var/log/my.app{1}.log" +:+ Py.str1 Py.dquote).
Proof.
  apply (string_without_placeholder_unchanged any_text ∅ constants_doc
           "/var/log/my.app{1}.log" 2).
  reflexivity.
Defined.

Lemma host_placeholder_replaced_once :
  replace_constants_in_string any_text {["HOST"; "PORT"]} "url=.{HOST}./x" host_doc
  = Ok "url=db.{PORT}.local/x".
Proof.
  apply (substitute_single any_text {["HOST"; "PORT"]} host_doc "url=" "HOST" "/x"
           (Some (VStr "db.{PORT}.local"))).
  - reflexivity.
  - reflexivity.
  - reflexivity.
  - apply (bool_decide_unpack (_ ∈ _)). vm_compute. exact I.
  - reflexivity.
Defined.

(** ** Arrays *)

Section Arrays.

Variable str_container : node -> string.

Lemma process_items_app (consts : gset string) (toml_doc : node) (d : nat)
    (before : list node) (texts : list string) (rest : list node) :
  Forall2 (fun item text => process_value str_container consts item d toml_doc = Ok text)
    before texts ->
  process_items str_container consts (before ++ rest)%list d toml_doc
  = (xs ← process_items str_container consts rest d toml_doc; Ok (texts ++ xs)%list).
Proof.
  induction 1 as [|item text before texts Hitem _ IH].
  - simpl. now destruct (process_items _ _ _ _ _).
  - cbn [app process_items]. rewrite Hitem, IH. simpl.
    now destruct (process_items _ _ rest _ _).
Qed.

(** X8: an array whose items all render gives an open bracket, the items
    rendered at the depth of the array itself and joined by a comma and a
    space, and a close bracket; the first item that does not render gives
    its error to the whole array. *)
Theorem process_array_shape (consts : gset string) (toml_doc : node) (d : nat)
    (before : list node) (texts : list string) :
  Forall2 (fun item text => process_value str_container consts item d toml_doc = Ok text)
    before texts ->
  process_value str_container consts (VList before) d toml_doc
  = Ok ("#( " +:+ Py.join ", " texts +:+ " )")
  /\ (forall item rest e,
        process_value str_container consts item d toml_doc = Raise e ->
        process_value str_container consts (VList (before ++ item :: rest)) d toml_doc
        = Raise e).
Proof.
  intros Hbefore. split.
  - rewrite process_value_list. unfold process_array.
    rewrite <- (app_nil_r before), (process_items_app _ _ _ _ _ [] Hbefore).
    simpl. now rewrite app_nil_r.
  - intros item rest e Hitem. rewrite process_value_list. unfold process_array.
    rewrite (process_items_app _ _ _ _ _ _ Hbefore).
    cbn [process_items]. now rewrite Hitem.
Qed.

End Arrays.

Lemma ports_rendering :
  process_value any_text ∅ (VList ports) 2 server_doc
  = Ok ("#( " +:+ Py.join ", " ["5432"; "5433"; "5434"] +:+ " )")
  /\ process_value any_text ∅ (VList ports_then_date) 2 server_doc
     = Raise (UnsupportedType "<class 'tomlkit.items.Date'>").
Proof.
  split.
  - apply (process_array_shape any_text ∅ server_doc 2 ports ["5432"; "5433"; "5434"]).
    repeat constructor.
  - apply (process_array_shape any_text ∅ server_doc 2 [VInt 5432] ["5432"]
             ltac:(repeat constructor)).
    reflexivity.
Defined.

(** ** The substitution pass over the document *)

Section SubstitutionPass.

Variable str_container : node -> string.

Lemma replace_constants_list_cons (consts : gset string) (toml_doc item : node)
    (elems : list node) (obj' : node) :
  replace_constants str_container consts (VList (item :: elems)) toml_doc = Ok obj' ->
  exists item' elems',
    replace_constants str_container consts item toml_doc = Ok item' /\
    replace_constants str_container consts (VList elems) toml_doc = Ok (VList elems') /\
    obj' = VList (item' :: elems').
Proof.
  cbn [replace_constants].
  destruct (replace_constants str_container consts item toml_doc) as [item'|e];
    [|discriminate].
  cbn [mbind result_bind fmap result_fmap].
  match goal with |- context [mbind _ ?loop] =>
    destruct loop as [elems'|e] end; [|discriminate].
  cbn [mbind result_bind]. intros [= <-]. now exists item', elems'.
Qed.

Lemma replace_constants_dict_cons (consts : gset string) (toml_doc : node)
    (kind : table_kind) (comment key : string) (value : node)
    (entries : list (string * node)) (obj' : node) :
  replace_constants str_container consts
    (VDict kind comment ((key, value) :: entries)) toml_doc = Ok obj' ->
  exists value' entries',
    replace_constants str_container consts value toml_doc = Ok value' /\
    replace_constants str_container consts (VDict kind comment entries) toml_doc
    = Ok (VDict PyDict EmptyString entries') /\
    obj' = VDict PyDict EmptyString ((key, value') :: entries').
Proof.
  cbn [replace_constants].
  destruct (replace_constants str_container consts value toml_doc) as [value'|e];
    [|discriminate].
  cbn [mbind result_bind fmap result_fmap].
  match goal with |- context [mbind _ ?loop] =>
    destruct loop as [entries'|e] end; [|discriminate].
  cbn [mbind result_bind]. intros [= <-]. now exists value', entries'.
Qed.


(** X10: once the substitution pass has succeeded on a value, rendering
    that value can only fail by itself, with UnsupportedIdentifier or
    UnsupportedType: no string in it can fail to substitute any more. *)
Theorem render_after_pass (consts : gset string) (toml_doc obj : node) :
  forall obj' d e,
  replace_constants str_container consts obj toml_doc = Ok obj' ->
  process_value str_container consts obj d toml_doc = Raise e ->
  serializer_error e.
Proof.
  induction obj as [| | | |elems IH|kind comment entries IH|] using node_ind;
    intros obj' d e Hpass Hrender; try discriminate.
  - cbn [replace_constants process_value] in *.
    destruct (replace_constants_in_string _ _ _ _); discriminate.
  - rewrite process_value_list in Hrender. unfold process_array in Hrender.
    revert obj' Hpass Hrender.
    induction IH as [|item elems Hitem _ IHelems]; intros obj' Hpass Hrender;
      [discriminate |].
    apply replace_constants_list_cons in Hpass as (item' & elems' & H1 & H2 & ->).
    cbn [process_items] in Hrender.
    destruct (process_value str_container consts item d toml_doc) as [x|e'] eqn:Hx;
      cbn [mbind result_bind] in Hrender.
    + apply (IHelems _ H2).
      destruct (process_items _ _ elems _ _); [discriminate | exact Hrender].
    + injection Hrender as <-. exact (Hitem _ _ _ H1 Hx).
  - rewrite process_value_dict in Hrender. unfold process_dict in Hrender.
    revert obj' Hpass Hrender.
    induction IH as [|[key value] entries Hvalue _ IHentries]; intros obj' Hpass Hrender;
      [discriminate |].
    apply replace_constants_dict_cons in Hpass as (value' & entries' & H1 & H2 & ->).
    cbn [process_entries] in Hrender. simpl in Hvalue.
    destruct (negb (Re.name_pattern_match key)).
    + injection Hrender as <-. exact I.
    + destruct (process_value str_container consts value (d + 1) toml_doc) as [x|e']
        eqn:Hx; cbn [mbind result_bind] in Hrender.
      * apply (IHentries _ H2).
        destruct (process_entries _ _ entries _ _); [discriminate | exact Hrender].
      * injection Hrender as <-. exact (Hvalue _ _ _ H1 Hx).
  - injection Hrender as <-. exact I.
Qed.

(** X11: a value without values of an unsupported kind, whose keys all pass
    the validator and whose strings hold no dot followed by an open brace,
    renders at every depth, whatever the constants and the document, and
    passes the substitution pass. *)
Theorem renderable_renders (consts : gset string) (toml_doc obj : node) :
  renderable obj = true ->
  forall d,
  is_ok (process_value str_container consts obj d toml_doc) = true
  /\ is_ok (replace_constants str_container consts obj toml_doc) = true.
Proof.
  induction obj as [| | | |elems IH|kind comment entries IH|] using node_ind;
    intros Hok d; try (split; reflexivity); try discriminate.
  - cbn [renderable] in Hok. apply negb_true_iff in Hok.
    pose proof (replace_without_open str_container consts toml_doc s Hok) as Hsame.
    cbn [process_value replace_constants]. rewrite Hsame. split; reflexivity.
  - rewrite process_value_list. unfold process_array. cbn [renderable] in Hok.
    induction IH as [|item elems Hitem _ IHelems]; [split; reflexivity |].
    cbn [forallb] in Hok. apply andb_true_iff in Hok as [H1 H2].
    destruct (Hitem H1 d) as [Hr Hp]. destruct (IHelems H2) as [Hrs Hps].
    cbn [process_items replace_constants] in *.
    destruct (process_value str_container consts item d toml_doc); [|discriminate].
    destruct (replace_constants str_container consts item toml_doc); [|discriminate].
    cbn [mbind result_bind fmap result_fmap] in *. split.
    + destruct (process_items _ _ elems _ _); [reflexivity | discriminate].
    + match goal with |- context [mbind _ ?loop] =>
        destruct loop end; [reflexivity | discriminate].
  - rewrite process_value_dict. unfold process_dict. cbn [renderable] in Hok.
    induction IH as [|[key value] entries Hvalue _ IHentries]; [split; reflexivity |].
    cbn [forallb] in Hok. apply andb_true_iff in Hok as [H1 H2].
    apply andb_true_iff in H1 as [Hkey H1]. simpl in Hvalue.
    destruct (Hvalue H1 (d + 1)) as [Hr Hp]. destruct (IHentries H2) as [Hrs Hps].
    cbn [process_entries replace_constants] in *. rewrite Hkey. cbn [negb].
    destruct (process_value str_container consts value (d + 1) toml_doc); [|discriminate].
    destruct (replace_constants str_container consts value toml_doc); [|discriminate].
    cbn [mbind result_bind fmap result_fmap] in *. split.
    + destruct (process_entries _ _ entries _ _); [reflexivity | discriminate].
    + match goal with |- context [mbind _ ?loop] =>
        destruct loop end; [reflexivity | discriminate].
Qed.

End SubstitutionPass.


Lemma date_fails_after_pass :
  is_ok (replace_constants any_text ∅ (table date_first) title_doc) = true
  /\ process_value any_text ∅ (table date_first) 1 title_doc
     = Raise (UnsupportedType "<class 'tomlkit.items.Date'>")
  /\ serializer_error (UnsupportedType "<class 'tomlkit.items.Date'>").
Proof.
  split; [reflexivity |]. split; [reflexivity |].
  apply (render_after_pass any_text ∅ title_doc (table date_first)
           (VDict PyDict EmptyString date_first) 1).
  - reflexivity.
  - reflexivity.
Defined.

Lemma server_doc_renders :
  is_ok (process_value any_text {["X"]} server_doc 0 title_doc) = true
  /\ is_ok (replace_constants any_text {["X"]} server_doc title_doc) = true.
Proof.
  apply (renderable_renders any_text {["X"]} title_doc server_doc). reflexivity.
Defined.

(** ** Discovery: what it registers and how it fails *)

Lemma register_sound (ms : list met) :
  forall consts consts', register ms consts = Ok consts' ->
  Forall declares_valid ms /\ NoDup ms
  /\ (forall name, Declares name ∈ ms -> name ∉ consts)
  /\ (forall name, name ∈ consts' <-> name ∈ consts \/ Declares name ∈ ms).
Proof.
  induction ms as [|[name|] ms IH]; intros consts consts' Hreg.
  - injection Hreg as <-. repeat split.
    + constructor.
    + constructor.
    + intros name Hin. now apply elem_of_nil in Hin.
    + now left.
    + intros [Hin|Hin]; [exact Hin | now apply elem_of_nil in Hin].
  - cbn [register] in Hreg.
    destruct (Re.name_pattern_match name) eqn:Hname; [|discriminate]. cbn [negb] in Hreg.
    destruct (decide (name ∈ consts)) as [|Hnew]; [discriminate |].
    destruct (IH _ _ Hreg) as (Hvalid & Hnodup & Hfresh & Hmem).
    repeat split.
    + constructor; [exact Hname | exact Hvalid].
    + constructor; [|exact Hnodup]. intros Hin.
      apply (Hfresh name Hin). apply elem_of_union. left. now apply elem_of_singleton.
    + intros other [Heq|Hin]%elem_of_cons Hold.
      * injection Heq as ->. contradiction.
      * apply (Hfresh other Hin). apply elem_of_union. now right.
    + intros Hin. apply Hmem in Hin as [[Heq%elem_of_singleton|Hold]%elem_of_union|Hin].
      * right. apply elem_of_cons. left. now rewrite Heq.
      * now left.
      * right. apply elem_of_cons. now right.
    + intros [Hold|[Heq|Hin]%elem_of_cons]; apply Hmem.
      * left. apply elem_of_union. now right.
      * injection Heq as ->. left. apply elem_of_union. left. now apply elem_of_singleton.
      * now right.
  - discriminate.
Qed.

(** X12: discovery from the empty set succeeds exactly when everything it
    meets is the declaration of a name the validator accepts and no name is
    met twice; the set it returns then holds exactly the names it met. *)
Theorem discovery_succeeds_exactly (toml_doc : node) :
  (is_ok (collect_constants toml_doc ∅) = true <->
   Forall declares_valid (discovered toml_doc) /\ NoDup (discovered toml_doc))
  /\ (forall consts, collect_constants toml_doc ∅ = Ok consts ->
      forall name, name ∈ consts <-> Declares name ∈ discovered toml_doc).
Proof.
  rewrite collect_constants_register. split; [split |].
  - destruct (register (discovered toml_doc) ∅) as [consts|e] eqn:Hreg; [|discriminate].
    intros _. apply register_sound in Hreg as (Hvalid & Hnodup & _). now split.
  - intros [Hvalid Hnodup].
    destruct (register_fresh _ Hvalid Hnodup ∅) as (consts & Hreg & _).
    + intros name _. apply not_elem_of_empty.
    + now rewrite Hreg.
  - intros consts Hreg name.
    apply register_sound in Hreg as (_ & _ & _ & Hmem).
    rewrite Hmem. split; [intros [Hin|Hin] | intros Hin; now right].
    + now apply not_elem_of_empty in Hin.
    + exact Hin.
Qed.

Lemma collect_constants_grows (obj : node) (consts consts' : gset string) (name : string) :
  collect_constants obj consts = Ok consts' -> name ∈ consts -> name ∈ consts'.
Proof.
  rewrite collect_constants_register. intros Hreg Hin.
  apply register_sound in Hreg as (_ & _ & _ & Hmem). apply Hmem. now left.
Qed.

(** X13: discovery only adds names: the names registered before the call
    are still registered after it, and every name it adds passes the
    validator. *)
Theorem discovery_adds_valid_names (obj : node) (consts consts' : gset string) :
  collect_constants obj consts = Ok consts' ->
  consts ⊆ consts'
  /\ forall name, name ∈ consts' -> name ∈ consts \/ Re.name_pattern_match name = true.
Proof.
  rewrite collect_constants_register. intros Hreg.
  apply register_sound in Hreg as (Hvalid & _ & _ & Hmem). split.
  - intros name Hin. apply Hmem. now left.
  - intros name Hin. apply Hmem in Hin as [Hold|Hnew]; [now left | right].
    rewrite Forall_forall in Hvalid. exact (Hvalid _ Hnew).
Qed.

(** X14: the first thing discovery meets that is not the declaration of a
    new valid name decides its error: InvalidConstantsValue for a constants
    key whose value is not a table, InvalidIdentifier naming the constant
    for a name the validator rejects. *)
Theorem discovery_first_failure (toml_doc : node) (pre post : list met) (m : met) :
  discovered toml_doc = (pre ++ m :: post)%list ->
  Forall declares_valid pre -> NoDup pre ->
  (m = NotATable -> collect_constants toml_doc ∅ = Raise InvalidConstantsValue)
  /\ (forall name, m = Declares name -> Re.name_pattern_match name = false ->
      collect_constants toml_doc ∅ = Raise (InvalidIdentifier name)).
Proof.
  intros Hmet Hvalid Hnodup.
  rewrite collect_constants_register, Hmet, register_app.
  destruct (register_fresh _ Hvalid Hnodup ∅) as (consts & Hreg & _);
    [intros name _; apply not_elem_of_empty |].
  rewrite Hreg. cbn [mbind result_bind]. split.
  - intros ->. reflexivity.
  - intros name -> Hname. cbn [register]. now rewrite Hname.
Qed.

Lemma discovery_keeps_registered_names :
  ({["OLD"]} : gset string) ⊆ {["OLD"; "MAX_CONNECTIONS"; "TIMEOUT"]}
  /\ forall name, name ∈ ({["OLD"; "MAX_CONNECTIONS"; "TIMEOUT"]} : gset string) ->
     name ∈ ({["OLD"]} : gset string) \/ Re.name_pattern_match name = true.
Proof.
  apply (discovery_adds_valid_names constants_doc {["OLD"]}
           {["OLD"; "MAX_CONNECTIONS"; "TIMEOUT"]}).
  vm_compute. reflexivity.
Defined.

Lemma discovery_failures :
  collect_constants number_constants_doc ∅ = Raise InvalidConstantsValue
  /\ collect_constants hyphen_constant_doc ∅ = Raise (InvalidIdentifier "bad-name").
Proof.
  split.
  - apply (discovery_first_failure number_constants_doc [Declares "A"] [] NotATable);
      [reflexivity | repeat constructor | | reflexivity].
    apply (bool_decide_unpack (NoDup _)). vm_compute. exact I.
  - apply (discovery_first_failure hyphen_constant_doc [Declares "A"] []
             (Declares "bad-name")); [reflexivity | repeat constructor | | reflexivity
             | reflexivity].
    apply (bool_decide_unpack (NoDup _)). vm_compute. exact I.
Defined.

(** ** Resolution on plain documents, both ways *)

Lemma collect_constants_list_cons (item : node) (elems : list node) (consts : gset string) :
  collect_constants (VList (item :: elems)) consts
  = (consts' ← collect_constants item consts; collect_constants (VList elems) consts').
Proof. reflexivity. Qed.

Lemma collect_constants_dict_cons (kind : table_kind) (comment key : string)
    (value : node) (entries : list (string * node)) (consts : gset string) :
  collect_constants (VDict kind comment ((key, value) :: entries)) consts
  = if is_constants key then
      match value with
      | VDict _ _ decls =>
          consts' ← add_constants decls consts;
          collect_constants (VDict kind comment entries) consts'
      | _ => Raise InvalidConstantsValue
      end
    else
      consts' ← collect_constants value consts;
      collect_constants (VDict kind comment entries) consts'.
Proof. reflexivity. Qed.

Lemma add_constants_registers (decls : list (string * node)) (consts consts' : gset string)
    (name : string) :
  add_constants decls consts = Ok consts' ->
  existsb (fun kv => String.eqb (fst kv) name) decls = true ->
  name ∈ consts'.
Proof.
  revert consts. induction decls as [|[key v] decls IH]; intros consts Hadd Hex;
    [discriminate |].
  cbn [add_constants] in Hadd.
  destruct (negb (Re.name_pattern_match key)); [discriminate |].
  destruct (decide (key ∈ consts)); [discriminate |].
  simpl in Hex. destruct (String.eqb_spec key name) as [->|Hne].
  - rewrite add_constants_register in Hadd.
    apply register_sound in Hadd as (_ & _ & _ & Hmem).
    apply Hmem. left. apply elem_of_union. left. now apply elem_of_singleton.
  - now apply (IH _ Hadd).
Qed.

Lemma resolved_names_registered (obj : node) :
  forall consts consts' name v,
  plain obj = true -> collect_constants obj consts = Ok consts' ->
  get_constant_value obj name = Ok (Some v) -> name ∈ consts'.
Proof.
  induction obj as [| | | |elems IH|kind comment entries IH|] using node_ind;
    intros consts consts' name v Hplain Hcollect Hget; try discriminate.
  - revert consts Hplain Hcollect Hget.
    induction IH as [|item elems Hitem _ IHelems]; intros consts Hplain Hcollect Hget;
      [discriminate |].
    rewrite collect_constants_list_cons in Hcollect.
    rewrite get_constant_value_list_cons in Hget.
    cbn [plain] in Hplain. apply andb_true_iff in Hplain as [Hp1 Hp2].
    destruct (collect_constants item consts) as [consts1|e] eqn:Hc1; [|discriminate].
    cbn [mbind result_bind] in Hcollect.
    destruct (get_constant_value item name) as [[x|]|e] eqn:Hg1;
      cbn [mbind result_bind] in Hget; [| |discriminate].
    + apply (collect_constants_grows _ _ _ _ Hcollect).
      exact (Hitem _ _ _ _ Hp1 Hc1 Hg1).
    + exact (IHelems _ Hp2 Hcollect Hget).
  - revert consts Hplain Hcollect Hget.
    induction IH as [|[key value] entries Hvalue _ IHentries];
      intros consts Hplain Hcollect Hget; [discriminate |].
    rewrite collect_constants_dict_cons in Hcollect.
    rewrite get_constant_value_dict_cons in Hget.
    cbn [plain] in Hplain. apply andb_true_iff in Hplain as [Hp1 Hp2].
    simpl in Hvalue.
    destruct (is_constants key).
    + destruct value as [| | | | |k c decls|]; try discriminate.
      destruct (add_constants decls consts) as [consts1|e] eqn:Hadd; [|discriminate].
      cbn [mbind result_bind py_in] in Hcollect, Hget.
      destruct (existsb _ decls) eqn:Hex.
      * apply (collect_constants_grows _ _ _ _ Hcollect).
        exact (add_constants_registers _ _ _ _ Hadd Hex).
      * rewrite (get_constant_value_plain_decls k c decls name Hp1) in Hget.
        cbn [mbind result_bind] in Hget. exact (IHentries _ Hp2 Hcollect Hget).
    + destruct (collect_constants value consts) as [consts1|e] eqn:Hc1; [|discriminate].
      cbn [mbind result_bind] in Hcollect, Hget.
      destruct (get_constant_value value name) as [[x|]|e] eqn:Hg1;
        cbn [mbind result_bind] in Hget; [| |discriminate].
      * apply (collect_constants_grows _ _ _ _ Hcollect).
        exact (Hvalue _ _ _ _ Hp1 Hc1 Hg1).
      * exact (IHentries _ Hp2 Hcollect Hget).
Qed.

(** X15: on a document whose constants tables hold scalars only and no
    constant named [constants], once discovery has succeeded the search
    never raises, finds a value for a name exactly when discovery
    registered that name, and returns None for every other name. *)
Theorem registered_iff_resolved (toml_doc : node) (consts : gset string) :
  plain toml_doc = true -> collect_constants toml_doc ∅ = Ok consts ->
  forall name,
    (name ∈ consts <-> exists v, get_constant_value toml_doc name = Ok (Some v))
    /\ (name ∉ consts -> get_constant_value toml_doc name = Ok None).
Proof.
  intros Hplain Hcollect name.
  destruct (registered_names_resolve toml_doc ∅ consts Hplain Hcollect) as [Hnever Hfinds].
  assert (Hiff : name ∈ consts <-> exists v, get_constant_value toml_doc name = Ok (Some v)).
  { split.
    - intros Hin. destruct (Hfinds name Hin) as [Hempty|Hv]; [|exact Hv].
      now apply not_elem_of_empty in Hempty.
    - intros [v Hv]. exact (resolved_names_registered _ _ _ _ _ Hplain Hcollect Hv). }
  split; [exact Hiff |].
  intros Hout. destruct (Hnever name) as [[v|] Hfound]; [|exact Hfound].
  exfalso. apply Hout, Hiff. now exists v.
Qed.

Lemma constants_doc_resolution :
  (("TIMEOUT" ∈ ({["MAX_CONNECTIONS"; "TIMEOUT"]} : gset string))
   <-> exists v, get_constant_value constants_doc "TIMEOUT" = Ok (Some v))
  /\ (("TIMEOUT" ∉ ({["MAX_CONNECTIONS"; "TIMEOUT"]} : gset string))
      -> get_constant_value constants_doc "TIMEOUT" = Ok None).
Proof.
  apply (registered_iff_resolved constants_doc {["MAX_CONNECTIONS"; "TIMEOUT"]}).
  - reflexivity.
  - vm_compute. reflexivity.
Defined.

(** ** Sections *)

Section Sections.

Variable str_container : node -> string.
Variable set_iter : gset string -> list string.

(** X16: inside a section the keys [constants] and [comments], in any
    letter case, never reach the output nor the validator: the body of a
    section is the body of the section without those entries. *)
Theorem section_body_skips_reserved (consts : gset string) (toml_doc : node) (d : nat)
    (entries : list (string * node)) :
  section_body str_container consts entries d toml_doc
  = section_body str_container consts
      (List.filter (fun kv => negb (reserved (fst kv))) entries) d toml_doc.
Proof.
  induction entries as [|[key v] entries IH]; [reflexivity |].
  cbn [List.filter fst]. unfold reserved.
  destruct (is_constants key) eqn:Hconst; cbn [orb negb].
  - cbn [section_body]. now rewrite Hconst.
  - destruct (is_comments key) eqn:Hcomm; cbn [negb section_body]; rewrite Hconst, Hcomm.
    + exact IH.
    + now rewrite IH.
Qed.

Lemma process_sections_app (consts : gset string) (toml_doc : node) (d : nat)
    (first second : list (string * node)) :
  process_sections str_container consts (first ++ second)%list d toml_doc
  = (text1 ← process_sections str_container consts first d toml_doc;
     text2 ← process_sections str_container consts second d toml_doc;
     Ok (text1 +:+ text2)).
Proof.
  induction first as [|[key v] first IH].
  - simpl. now destruct (process_sections _ _ second _ _).
  - destruct (is_section v) eqn:Hv.
    + destruct v as [| | | | |kind c es|]; try discriminate.
      destruct kind; try discriminate.
      cbn [app process_sections]. rewrite IH.
      destruct (negb (Re.name_pattern_match key)); [reflexivity |].
      destruct (section_body _ _ _ _ _) as [body|e]; [|reflexivity].
      cbn [mbind result_bind].
      destruct (process_sections _ _ first _ _) as [text1|e]; [|reflexivity].
      cbn [mbind result_bind].
      destruct (process_sections _ _ second _ _) as [text2|e]; [|reflexivity].
      cbn [mbind result_bind]. f_equal. now rewrite !append_assoc.
    + cbn [app]. rewrite !process_sections_skip by exact Hv. exact IH.
Qed.

(** X17: the text of the sections of a document is the text of its first
    entries followed by the text of the remaining ones, and an error in the
    first ones comes before any error in the others. *)
Theorem process_sections_compose (consts : gset string) (toml_doc : node) (d : nat)
    (first second : list (string * node)) :
  (forall text1 text2,
     process_sections str_container consts first d toml_doc = Ok text1 ->
     process_sections str_container consts second d toml_doc = Ok text2 ->
     process_sections str_container consts (first ++ second)%list d toml_doc
     = Ok (text1 +:+ text2))
  /\ (forall e,
       process_sections str_container consts first d toml_doc = Raise e ->
       process_sections str_container consts (first ++ second)%list d toml_doc = Raise e).
Proof.
  split.
  - intros text1 text2 H1 H2. now rewrite process_sections_app, H1, H2.
  - intros e H1. now rewrite process_sections_app, H1.
Qed.


(** ** The whole translation *)

Lemma join_cons (sep p q : string) (rest : list string) :
  Py.join sep (p :: q :: rest) = p +:+ sep +:+ Py.join sep (q :: rest).
Proof. reflexivity. Qed.

(** X19: for a document in which discovery meets no constants key at all,
    and with a loop that yields nothing for the empty set, the translation
    holds no declaration and no blank line: it is the text of the sections
    alone, once the substitution pass has succeeded. *)
Theorem main_without_constants (toml_doc : node) :
  discovered toml_doc = [] -> set_iter ∅ = [] ->
  main str_container set_iter toml_doc
  = (_ ← replace_constants str_container ∅ toml_doc toml_doc;
     process_object str_container ∅ toml_doc 1).
Proof.
  intros Hnone Hiter. unfold main, process_constants.
  rewrite collect_constants_register, Hnone.
  cbn [register mbind result_bind]. rewrite Hiter.
  cbn [declarations mbind result_bind Py.join].
  destruct (replace_constants _ _ _ _) as [data|e]; [|reflexivity].
  cbn [mbind result_bind].
  destruct (process_object _ _ _ _) as [config|e]; reflexivity.
Qed.

Lemma declarations_start (consts : gset string) (obj : node) (name : string)
    (names ds : list string) :
  declarations str_container consts (name :: names) obj = Ok ds ->
  exists tail, Py.join nl ds = "def " +:+ name +:+ tail.
Proof.
  cbn [declarations].
  destruct (get_constant_value obj name) as [found|e]; [|discriminate].
  cbn [mbind result_bind].
  destruct (process_found _ _ _ _) as [text|e]; [|discriminate].
  cbn [mbind result_bind].
  destruct (declarations _ _ names _) as [rest|e]; [|discriminate].
  cbn [mbind result_bind]. intros [= <-].
  destruct rest as [|r rest].
  - exists (" := " +:+ text +:+ ";"). reflexivity.
  - exists (" := " +:+ text +:+ ";" +:+ nl +:+ Py.join nl (r :: rest)).
    rewrite join_cons. simpl. rewrite !append_assoc. simpl.
    rewrite !append_assoc. reflexivity.
Qed.

(** X20: when the loop over the registered names yields at least one name
    and every phase succeeds, the translation is the declarations, which
    start with [def] and the first name the loop yields, then an empty
    line, then the text of the sections. *)
Theorem main_with_constants (toml_doc data : node) (consts : gset string)
    (name : string) (names : list string) (decls config : string) :
  collect_constants toml_doc ∅ = Ok consts ->
  set_iter consts = name :: names ->
  process_constants str_container set_iter consts toml_doc = Ok decls ->
  replace_constants str_container consts toml_doc toml_doc = Ok data ->
  process_object str_container consts toml_doc 1 = Ok config ->
  main str_container set_iter toml_doc = Ok (decls +:+ nl +:+ nl +:+ config)
  /\ exists tail, decls = "def " +:+ name +:+ tail.
Proof.
  intros Hcollect Hiter Hdecls Hdata Hconfig.
  assert (Hstart : exists tail, decls = "def " +:+ name +:+ tail).
  { unfold process_constants in Hdecls. rewrite Hiter in Hdecls.
    destruct (declarations _ _ _ _) as [ds|e] eqn:Hds; [|discriminate].
    injection Hdecls as <-. exact (declarations_start _ _ _ _ _ Hds). }
  split; [|exact Hstart].
  unfold main. rewrite Hcollect. cbn [mbind result_bind].
  rewrite Hdecls. cbn [mbind result_bind].
  rewrite Hdata. cbn [mbind result_bind].
  rewrite Hconfig. cbn [mbind result_bind].
  destruct Hstart as [tail ->]. reflexivity.
Qed.

End Sections.

Lemma server_then_client_sections :
  process_sections any_text ∅
    ([("title", VStr "example"); ("server", table host_port)]
     ++ [("point", inline [("x", VInt 1)]); ("client", table [("retries", VInt 3)])])%list
    1 mixed_doc
  = Ok ((tab1 +:+ "server = $[" +:+ nl
         +:+ tab1 +:+ tab1 +:+ "host = " +:+ quoted "localhost" +:+ nl
         +:+ tab1 +:+ tab1 +:+ "port = 8080" +:+ nl
         +:+ tab1 +:+ "]" +:+ nl)
        +:+ (tab1 +:+ "client = $[" +:+ nl
             +:+ tab1 +:+ tab1 +:+ "retries = 3" +:+ nl
             +:+ tab1 +:+ "]" +:+ nl)).
Proof.
  apply (process_sections_compose any_text ∅ mixed_doc 1
           [("title", VStr "example"); ("server", table host_port)]
           [("point", inline [("x", VInt 1)]); ("client", table [("retries", VInt 3)])]).
  - vm_compute. reflexivity.
  - vm_compute. reflexivity.
Defined.

Lemma constants_doc_is_discovered :
  is_ok (collect_constants constants_doc ∅) = true.
Proof.
  apply (discovery_succeeds_exactly constants_doc). split.
  - repeat constructor.
  - apply (bool_decide_unpack (NoDup _)). vm_compute. exact I.
Defined.

Lemma server_doc_translation :
  main any_text ascending server_doc
  = Ok (tab1 +:+ "server = $[" +:+ nl
        +:+ tab1 +:+ tab1 +:+ "host = " +:+ quoted "localhost" +:+ nl
        +:+ tab1 +:+ tab1 +:+ "port = 8080" +:+ nl
        +:+ tab1 +:+ "]" +:+ nl).
Proof.
  rewrite (main_without_constants any_text ascending server_doc).
  - vm_compute. reflexivity.
  - reflexivity.
  - vm_compute. reflexivity.
Defined.

Lemma constants_doc_translation :
  main any_text ascending constants_doc
  = Ok (("def MAX_CONNECTIONS := 100;" +:+ nl +:+ "def TIMEOUT := 30;") +:+ nl +:+ nl
        +:+ (tab1 +:+ "server = $[" +:+ nl
             +:+ tab1 +:+ tab1 +:+ "host = " +:+ quoted "localhost" +:+ nl
             +:+ tab1 +:+ tab1 +:+ "port = 8080" +:+ nl
             +:+ tab1 +:+ "]" +:+ nl))
  /\ exists tail,
       "def MAX_CONNECTIONS := 100;" +:+ nl +:+ "def TIMEOUT := 30;"
       = "def " +:+ "MAX_CONNECTIONS" +:+ tail.
Proof.
  eapply (main_with_constants any_text ascending constants_doc).
  - vm_compute. reflexivity.
  - vm_compute. reflexivity.
  - vm_compute. reflexivity.
  - vm_compute. reflexivity.
  - vm_compute. reflexivity.
Defined.

(** ** The errors of the whole translation *)

Section Errors.

Variable str_container : node -> string.
Variable set_iter : gset string -> list string.

Lemma register_reported (ms : list met) :
  forall consts e, register ms consts = Raise e -> reported e.
Proof.
  induction ms as [|[name|] ms IH]; intros consts e Hraise; [discriminate | |].
  - cbn [register] in Hraise.
    destruct (negb (Re.name_pattern_match name)); [now injection Hraise as <- |].
    destruct (decide (name ∈ consts)); [now injection Hraise as <- |].
    exact (IH _ _ Hraise).
  - now injection Hraise as <-.
Qed.

Lemma get_constant_value_reported (obj : node) (name : string) (e : error) :
  get_constant_value obj name = Raise e -> reported e.
Proof.
  intros Hraise. apply get_constant_value_type_errors in Hraise as [->| ->]; exact I.
Qed.

Lemma replace_matches_reported (consts : gset string) (toml_doc : node)
    (matches : list string) :
  forall value e,
  replace_matches str_container consts toml_doc matches value = Raise e -> reported e.
Proof.
  induction matches as [|m matches IH]; intros value e Hraise; [discriminate |].
  cbn [replace_matches] in Hraise.
  destruct (decide (m ∈ consts)); [|now injection Hraise as <-].
  destruct (get_constant_value toml_doc m) as [found|e'] eqn:Hget;
    cbn [mbind result_bind] in Hraise.
  - exact (IH _ _ Hraise).
  - injection Hraise as <-. exact (get_constant_value_reported _ _ _ Hget).
Qed.

Lemma process_value_reported (consts : gset string) (toml_doc obj : node) :
  forall d e, process_value str_container consts obj d toml_doc = Raise e -> reported e.
Proof.
  induction obj as [| | | |elems IH|kind comment entries IH|] using node_ind;
    intros d e Hraise; try discriminate.
  - cbn [process_value] in Hraise.
    destruct (replace_constants_in_string _ _ _ _) as [s'|e'] eqn:Hs; [discriminate |].
    injection Hraise as <-. exact (replace_matches_reported _ _ _ _ _ Hs).
  - rewrite process_value_list in Hraise. unfold process_array in Hraise.
    induction IH as [|item elems Hitem _ IHelems]; [discriminate |].
    cbn [process_items] in Hraise.
    destruct (process_value str_container consts item d toml_doc) as [x|e'] eqn:Hx;
      cbn [mbind result_bind] in Hraise.
    + apply IHelems.
      destruct (process_items _ _ elems _ _); [discriminate | exact Hraise].
    + injection Hraise as <-. exact (Hitem _ _ Hx).
  - rewrite process_value_dict in Hraise. unfold process_dict in Hraise.
    induction IH as [|[key value] entries Hvalue _ IHentries]; [discriminate |].
    cbn [process_entries] in Hraise. simpl in Hvalue.
    destruct (negb (Re.name_pattern_match key)); [now injection Hraise as <- |].
    destruct (process_value str_container consts value (d + 1) toml_doc) as [x|e']
      eqn:Hx; cbn [mbind result_bind] in Hraise.
    + apply IHentries.
      destruct (process_entries _ _ entries _ _); [discriminate | exact Hraise].
    + injection Hraise as <-. exact (Hvalue _ _ Hx).
  - now injection Hraise as <-.
Qed.

Lemma replace_constants_reported (consts : gset string) (toml_doc obj : node) :
  forall e, replace_constants str_container consts obj toml_doc = Raise e -> reported e.
Proof.
  induction obj as [| | | |elems IH|kind comment entries IH|] using node_ind;
    intros e Hraise; try discriminate.
  - cbn [replace_constants] in Hraise.
    destruct (replace_constants_in_string _ _ _ _) as [s'|e'] eqn:Hs; [discriminate |].
    injection Hraise as <-. exact (replace_matches_reported _ _ _ _ _ Hs).
  - induction IH as [|item elems Hitem _ IHelems]; [discriminate |].
    cbn [replace_constants] in Hraise, IHelems.
    destruct (replace_constants str_container consts item toml_doc) as [item'|e']
      eqn:Hitem'; cbn [mbind result_bind fmap result_fmap] in Hraise.
    + apply IHelems.
      match goal with H : context [mbind _ ?loop] |- _ =>
        destruct loop; [discriminate | exact H] end.
    + injection Hraise as <-. exact (Hitem _ eq_refl).
  - induction IH as [|[key value] entries Hvalue _ IHentries]; [discriminate |].
    cbn [replace_constants] in Hraise, IHentries. simpl in Hvalue.
    destruct (replace_constants str_container consts value toml_doc) as [value'|e']
      eqn:Hvalue'; cbn [mbind result_bind fmap result_fmap] in Hraise.
    + apply IHentries.
      match goal with H : context [mbind _ ?loop] |- _ =>
        destruct loop; [discriminate | exact H] end.
    + injection Hraise as <-. exact (Hvalue _ eq_refl).
Qed.

Lemma declarations_reported (consts : gset string) (obj : node) (names : list string) :
  forall e, declarations str_container consts names obj = Raise e -> reported e.
Proof.
  induction names as [|name names IH]; intros e Hraise; [discriminate |].
  cbn [declarations] in Hraise.
  destruct (get_constant_value obj name) as [found|e'] eqn:Hget;
    cbn [mbind result_bind] in Hraise.
  - destruct (process_found str_container consts found obj) as [text|e'] eqn:Htext;
      cbn [mbind result_bind] in Hraise.
    + apply IH. destruct (declarations _ _ names _); [discriminate | exact Hraise].
    + injection Hraise as <-. destruct found as [v|].
      * exact (process_value_reported _ _ _ _ _ Htext).
      * now injection Htext as <-.
  - injection Hraise as <-. exact (get_constant_value_reported _ _ _ Hget).
Qed.

Lemma section_body_reported (consts : gset string) (toml_doc : node) (d : nat)
    (entries : list (string * node)) :
  forall e, section_body str_container consts entries d toml_doc = Raise e -> reported e.
Proof.
  induction entries as [|[key v] entries IH]; intros e Hraise; [discriminate |].
  cbn [section_body] in Hraise.
  destruct (is_constants key); [exact (IH _ Hraise) |].
  destruct (is_comments key); [exact (IH _ Hraise) |].
  destruct (negb (Re.name_pattern_match key)); [now injection Hraise as <- |].
  destruct (process_value str_container consts v (d + 1) toml_doc) as [x|e'] eqn:Hx;
    cbn [mbind result_bind] in Hraise.
  - apply IH. destruct (section_body _ _ entries _ _); [discriminate | exact Hraise].
  - injection Hraise as <-. exact (process_value_reported _ _ _ _ _ Hx).
Qed.

Lemma process_sections_reported (consts : gset string) (toml_doc : node) (d : nat)
    (sections : list (string * node)) :
  forall e, process_sections str_container consts sections d toml_doc = Raise e ->
  reported e.
Proof.
  induction sections as [|[key v] sections IH]; intros e Hraise; [discriminate |].
  destruct (is_section v) eqn:Hv.
  - destruct v as [| | | | |kind c es|]; try discriminate.
    destruct kind; try discriminate.
    cbn [process_sections] in Hraise.
    destruct (negb (Re.name_pattern_match key)); [now injection Hraise as <- |].
    destruct (section_body str_container consts es d toml_doc) as [body|e'] eqn:Hbody;
      cbn [mbind result_bind] in Hraise.
    + apply IH. destruct (process_sections _ _ sections _ _); [discriminate | exact Hraise].
    + injection Hraise as <-. exact (section_body_reported _ _ _ _ _ Hbody).
  - rewrite process_sections_skip in Hraise by exact Hv. exact (IH _ Hraise).
Qed.

(** X21: whatever the document, the translation of a table ends with its
    text or with one of the errors the program reports: a ValueError of
    main.py or a TypeError of the search for a constant; it never ends with
    a KeyError or an AttributeError. *)
Theorem main_reports (kind : table_kind) (comment : string)
    (entries : list (string * node)) (e : error) :
  main str_container set_iter (VDict kind comment entries) = Raise e -> reported e.
Proof.
  unfold main, process_constants, process_object. cbn [items].
  set (toml_doc := VDict kind comment entries).
  destruct (collect_constants toml_doc ∅) as [consts|e1] eqn:H1; cbn [mbind result_bind].
  - destruct (declarations str_container consts (set_iter consts) toml_doc)
      as [ds|e2] eqn:H2; cbn [mbind result_bind].
    + destruct (replace_constants str_container consts toml_doc toml_doc)
        as [data|e3] eqn:H3; cbn [mbind result_bind].
      * destruct (process_sections str_container consts entries 1 toml_doc)
          as [config|e4] eqn:H4; cbn [mbind result_bind]; [discriminate |].
        intros [= <-]. exact (process_sections_reported _ _ _ _ _ H4).
      * intros [= <-]. exact (replace_constants_reported _ _ _ _ H3).
    + intros [= <-]. exact (declarations_reported _ _ _ _ H2).
  - intros [= <-]. rewrite collect_constants_register in H1.
    exact (register_reported _ _ _ H1).
Qed.


End Errors.

Lemma shadow_doc_error_is_reported :
  main any_text ascending shadow_doc = Raise TypeErrorNotContainer
  /\ reported TypeErrorNotContainer.
Proof.
  split; [vm_compute; reflexivity |].
  apply (main_reports any_text ascending Document EmptyString
           [("a", table [("constants", inline [("constants", VInt 5)])]);
            ("b", table [("constants", inline [("X", VInt 1)])])]).
  vm_compute. reflexivity.
Defined.
